(** * ironic_python_agent.ironic_api_client : lookup and heartbeat

    A shallow embedding of [APIClient] (heartbeat, lookup_node, _do_lookup
    and its nested next_interval) together with the properties of the
    retry loop that drives the lookup.

    Python objects that the code mutates in place (the [intervals] and
    [total_time] lists) live in an explicit heap and are passed around by
    reference, exactly as the source passes the list objects.  Numbers of
    seconds are Python integers, hence [Z].  Exceptions are values of
    [exn]; a computation either returns or raises. *)

From Stdlib Require Import ZArith Ascii String List Lia Bool.
From stdpp Require Import base option list gmap strings pretty.

Local Set Warnings "-register-all".
Local Open Scope Z_scope.
Local Open Scope string_scope.
Local Open Scope list_scope.

(* ------------------------------------------------------------------ *)
(** ** Python values produced by json.loads                            *)
(* ------------------------------------------------------------------ *)

Inductive value : Type :=
  | VNone
  | VBool (b : bool)
  | VInt (z : Z)
  | VFloat (literal : string)
  | VStr (s : string)
  | VList (l : list value)
  | VDict (d : gmap string value).

(** Name of the Python type of a value, as it appears in error messages. *)
Definition type_name (v : value) : string :=
  match v with
  | VNone => "NoneType"
  | VBool _ => "bool"
  | VInt _ => "int"
  | VFloat _ => "float"
  | VStr _ => "str"
  | VList _ => "list"
  | VDict _ => "dict"
  end.

(* ------------------------------------------------------------------ *)
(** ** Exceptions and results                                          *)
(* ------------------------------------------------------------------ *)

Inductive exn_class : Type :=
  | Exception        (* anything raised by a collaborator *)
  | TypeError
  | KeyError
  | IndexError
  | ValueError
  | HeartbeatError   (* errors.HeartbeatError *)
  | LookupNodeError. (* errors.LookupNodeError *)

(** [LoopingCallDone] carries the optional [retvalue] keyword it was
    built with; every other exception carries its class and message. *)
Inductive exn : Type :=
  | Error (cls : exn_class) (msg : string)
  | LoopingCallDone (retvalue : option value).

Definition str (e : exn) : string :=
  match e with
  | Error _ msg => msg
  | LoopingCallDone _ => ""
  end.

Inductive result (A : Type) : Type :=
  | Return (a : A)
  | Raise (e : exn).
Arguments Return {A} a.
Arguments Raise {A} e.

(* ------------------------------------------------------------------ *)
(** ** HTTP messages                                                   *)
(* ------------------------------------------------------------------ *)

Module codes.
Definition OK : Z := 200.
Definition NO_CONTENT : Z := 204.
End codes.

Record request : Type := Request {
  method : string;
  url : string;
  request_headers : list (string * string);
  body : option string
}.

(** [headers] is the mapping's subscript: [None] is a KeyError. *)
Record response : Type := Response {
  status_code : Z;
  headers : string -> option string;
  content : string
}.

(** Messages handed to [self.log.warning]. *)
Inductive warning : Type :=
  | POST_failed (reason : string)
  | Invalid_status_code (code : Z)
  | Error_decoding_response (reason : string)
  | Got_invalid_node_data (content : value)
  | Got_invalid_heartbeat (content : value).

(* ------------------------------------------------------------------ *)
(** ** The world: heap of list objects, network, log, clock            *)
(* ------------------------------------------------------------------ *)

(** References to list objects. *)
Abbreviation loc := nat (only parsing).

Record world : Type := World {
  heap : list (list Z);     (* list objects, addressed by position *)
  sent : list request;      (* requests issued through the session *)
  log : list warning;       (* warnings, oldest first *)
  slept : list Z            (* durations slept by the loop, oldest first *)
}.

Definition M (A : Type) : Type := world -> result A * world.

Definition ret {A} (a : A) : M A := fun w => (Return a, w).
Definition raise {A} (e : exn) : M A := fun w => (Raise e, w).
Definition bind {A B} (m : M A) (k : A -> M B) : M B :=
  fun w => match m w with
           | (Return a, w') => k a w'
           | (Raise e, w') => (Raise e, w')
           end.
(** try: m except Exception as e: h e *)
Definition try_except {A} (m : M A) (h : exn -> M A) : M A :=
  fun w => match m w with
           | (Return a, w') => (Return a, w')
           | (Raise e, w') => h e w'
           end.
Definition lift {A} (r : result A) : M A := fun w => (r, w).

Declare Scope py_scope.
Delimit Scope py_scope with py.
Notation "x <- m ;; k" := (bind m (fun x => k))
  (at level 90, m at level 89, right associativity) : py_scope.
Notation "m ;;; k" := (bind m (fun _ => k))
  (at level 90, right associativity) : py_scope.
Local Open Scope py_scope.

(** *** Heap primitives *)

Definition set_heap (h : list (list Z)) (w : world) : world :=
  World h (sent w) (log w) (slept w).

(** A list display [[x]] evaluated by the interpreter: a new object. *)
Definition new_list (xs : list Z) : M loc :=
  fun w => (Return (length (heap w)), set_heap (heap w ++ [xs]) w).

(** A reference always denotes an object: the second branch is there to
    make the function total and is not reached from lookup_node. *)
Definition deref (l : loc) : M (list Z) :=
  fun w => match heap w !! l with
           | Some xs => (Return xs, w)
           | None => (Raise (Error Exception "dangling reference"), w)
           end.

Definition store (l : loc) (xs : list Z) : M unit :=
  fun w => (Return tt, set_heap (<[l := xs]> (heap w)) w).

(** [lst[-1]] *)
Definition list_last (l : loc) : M Z :=
  xs <- deref l ;;
  match last xs with
  | Some x => ret x
  | None => raise (Error IndexError "list index out of range")
  end.

(** [lst[0]] *)
Definition list_first (l : loc) : M Z :=
  xs <- deref l ;;
  match xs with
  | x :: _ => ret x
  | [] => raise (Error IndexError "list index out of range")
  end.

(** [lst[0] = v] *)
Definition list_set_first (l : loc) (v : Z) : M unit :=
  xs <- deref l ;;
  match xs with
  | _ :: tl => store l (v :: tl)
  | [] => raise (Error IndexError "list assignment index out of range")
  end.

(** [lst.append(v)] *)
Definition list_append (l : loc) (v : Z) : M unit :=
  xs <- deref l ;;
  store l (xs ++ [v]).

(** *** Log and clock *)

Definition log_warning (m : warning) : M unit :=
  fun w => (Return tt, World (heap w) (sent w) (log w ++ [m]) (slept w)).

Definition sleep (idle : Z) : M unit :=
  fun w => (Return tt, World (heap w) (sent w) (log w) (slept w ++ [idle])).

(* ------------------------------------------------------------------ *)
(** ** Membership and subscript on decoded JSON                        *)
(* ------------------------------------------------------------------ *)

(** [needle in haystack] on strings: substring test. *)
Fixpoint is_substring (needle hay : string) : bool :=
  String.prefix needle hay ||
  match hay with
  | EmptyString => false
  | String _ hay' => is_substring needle hay'
  end.

(** [key in container] for a string [key]. *)
Definition contains (key : string) (container : value) : result bool :=
  match container with
  | VDict d => Return (bool_decide (is_Some (d !! key)))
  | VList l =>
      Return (existsb (fun v => match v with
                                | VStr s => String.eqb s key
                                | _ => false
                                end) l)
  | VStr s => Return (is_substring key s)
  | v => Raise (Error TypeError
                  ("argument of type '" +:+ type_name v +:+ "' is not iterable"))
  end.

(** [container[key]] for a string [key]. *)
Definition getitem (container : value) (key : string) : result value :=
  match container with
  | VDict d =>
      match d !! key with
      | Some v => Return v
      | None => Raise (Error KeyError key)
      end
  | VList _ => Raise (Error TypeError "list indices must be integers")
  | VStr _ => Raise (Error TypeError "string indices must be integers")
  | v => Raise (Error TypeError
                  ("'" +:+ type_name v +:+ "' object is not subscriptable"))
  end.

(** [v is True] *)
Definition is_True (v : value) : bool :=
  match v with
  | VBool true => true
  | _ => false
  end.

(* ------------------------------------------------------------------ *)
(** ** The client                                                      *)
(* ------------------------------------------------------------------ *)

Record APIClient : Type := { api_url : string }.

Definition api_version : string := "v1".

(** [s.rstrip('/')] *)
Fixpoint rstrip_slash (s : string) : string :=
  match s with
  | EmptyString => EmptyString
  | String c s' =>
      match rstrip_slash s' with
      | EmptyString => if Ascii.eqb c "/"%char then EmptyString
                       else String c EmptyString
      | t => String c t
      end
  end.

Definition APIClient_init (api_url : string) : APIClient :=
  {| api_url := rstrip_slash api_url |}.

(** The list objects bound as defaults of [_do_lookup]'s [intervals=[1]]
    and [total_time=[0]] when the class body is executed; they are the
    first two objects of the heap of [boot].  The defaults of the nested
    [next_interval] are never used: each of its calls passes all three
    arguments. *)
Definition _do_lookup_default_intervals : loc := 0%nat.
Definition _do_lookup_default_total_time : loc := 1%nat.
Definition boot : world := World [[1]; [0]] [] [] [].

(* ------------------------------------------------------------------ *)
(** ** Collaborators used to run the client on concrete exchanges      *)
(* ------------------------------------------------------------------ *)

Module Scenario.

Definition client : APIClient := APIClient_init "http://ironic:6385/".

Definition hardware : value := VList [VDict {[ "type" := VStr "mac" ]}].

(** An encoder that always succeeds. *)
Definition encoder (v : value) : result string := Return "{}".

Definition no_headers : string -> option string := fun _ => None.

(** The service answers every request with status 500. *)
Definition always_500 (n : nat) (req : request) : result response :=
  Return (Response 500 no_headers "").

(** The service answers every request with status 200 and [body]. *)
Definition always_200 (body : string) (n : nat) (req : request)
    : result response :=
  Return (Response 200 no_headers body).

(** The connection is refused twice, then the node is found. *)
Definition third_time_lucky (n : nat) (req : request) : result response :=
  if (n <? 2)%nat then Raise (Error Exception "Connection refused")
  else Return (Response 200 no_headers "node").

Definition node_abc : value :=
  VDict (<[ "node" := VDict {[ "uuid" := VStr "abc" ]} ]>
           {[ "heartbeat_timeout" := VInt 300 ]}).

Definition node_as_string : value :=
  VDict (<[ "node" := VStr "uuid" ]> {[ "heartbeat_timeout" := VInt 300 ]}).

(** A decoder for the bodies of the scenarios:
    "node" stands for {"node": {"uuid": "abc"}, "heartbeat_timeout": 300},
    "string" for {"node": "uuid", "heartbeat_timeout": 300}. *)
Definition decoder (body : string) : result value :=
  if String.eqb body "null" then Return VNone
  else if String.eqb body "node" then Return node_abc
  else if String.eqb body "string" then Return node_as_string
  else Raise (Error ValueError "No JSON object could be decoded").

(** A session for heartbeats: status 204 and the given headers. *)
Definition heartbeat_ok (hs : string -> option string) (n : nat)
    (req : request) : result response :=
  Return (Response 204 hs "").

Definition heartbeat_before (v : string) (name : string) : option string :=
  if String.eqb name "Heartbeat-Before" then Some v else None.

(** A stand-in for float: fractions as numerator and denominator, and
    the only string it reads is 10.5. *)
Definition read_float (h : string) : option (Z * Z) :=
  if String.eqb h "10.5" then Some (21, 2) else None.

(** A world in which a call of lookup_node has made its two lists. *)
Definition entered : world := World [[1]; [0]; [1]; [0]] [] [] [].

(** The world left by a lookup against [always_500] with timeout 3 and
    starting_interval 1, started in [boot]. *)
Definition after_first_call : world :=
  World [[1]; [0]; [1; 2]; [2]]
        [Request "POST"
           "http://ironic:6385/v1/drivers/teeth/vendor_passthru/lookup"
           [("Content-Type", "application/json");
            ("Accept", "application/json")] (Some "{}");
         Request "POST"
           "http://ironic:6385/v1/drivers/teeth/vendor_passthru/lookup"
           [("Content-Type", "application/json");
            ("Accept", "application/json")] (Some "{}")]
        [Invalid_status_code 500; Invalid_status_code 500] [2].

Definition timed_out : result value :=
  Raise (Error LookupNodeError
           "Could not look up node info. Check logs for details.").

(** An encoder that cannot serialise what it is given. *)
Definition broken_encoder (v : value) : result string :=
  Raise (Error TypeError "is not JSON serializable").

(** The world left by a lookup with [broken_encoder], timeout 3 and
    starting_interval 1, started in [boot]. *)
Definition after_unsent_call : world :=
  World [[1]; [0]; [1; 2]; [2]] []
        [POST_failed "is not JSON serializable";
         POST_failed "is not JSON serializable"] [2].

End Scenario.

Section Client.

(** Collaborators: the JSON encoder, the HTTP session (its answer to
    the n-th request it is handed), json.loads. *)
Variable encode : value -> result string.
Variable session_request : nat -> request -> result response.
Variable json_loads : string -> result value.

(** [self.session.request(...)] *)
Definition session_call (req : request) : M response :=
  fun w => (session_request (length (sent w)) req,
            World (heap w) (sent w ++ [req]) (log w) (slept w)).

Definition _request (self : APIClient) (method path : string)
    (data : option value) : M response :=
  let request_url := api_url self +:+ path in
  data <- match data with
          | Some d => s <- lift (encode d) ;; ret (Some s)
          | None => ret None
          end ;;
  let request_headers :=
    [("Content-Type", "application/json"); ("Accept", "application/json")] in
  session_call (Request method request_url request_headers data).

(** The function nested in [_do_lookup]. *)
Definition next_interval (timeout : Z) (intervals total_time : loc) : M Z :=
  last_interval <- list_last intervals ;;
  let new_interval := last_interval * 2 in
  t <- list_first total_time ;;
  if (t + new_interval >? timeout)%Z then
    (* No retvalue signifies error *)
    raise (LoopingCallDone None)
  else
    t <- list_first total_time ;;
    list_set_first total_time (t + new_interval) ;;;
    list_append intervals new_interval ;;;
    ret new_interval.

(** [key not in container] *)
Definition not_in (key : string) (container : value) : M bool :=
  b <- lift (contains key container) ;; ret (negb b).

Definition _do_lookup (self : APIClient) (hardware_info : value)
    (timeout : Z) (intervals total_time : loc) : M Z :=
  let path := "/" +:+ api_version +:+ "/drivers/teeth/vendor_passthru/lookup" in
  let data := VDict {[ "hardware" := hardware_info ]} in
  fun w =>
  match _request self "POST" path (Some data) w with
  | (Raise e, w) =>
      (log_warning (POST_failed (str e)) ;;;
       next_interval timeout intervals total_time) w
  | (Return response, w) =>
      if negb (status_code response =? codes.OK)%Z then
        (log_warning (Invalid_status_code (status_code response)) ;;;
         next_interval timeout intervals total_time) w
      else
        match json_loads (content response) with
        | Raise e =>
            (log_warning (Error_decoding_response (str e)) ;;;
             next_interval timeout intervals total_time) w
        | Return content =>
            (* Check for valid response data *)
            (no_node <- (missing <- not_in "node" content ;;
                         if (missing : bool) then ret true
                         else node <- lift (getitem content "node") ;;
                              not_in "uuid" node) ;;
             if (no_node : bool) then
               log_warning (Got_invalid_node_data content) ;;;
               next_interval timeout intervals total_time
             else
               no_heartbeat <- not_in "heartbeat_timeout" content ;;
               if (no_heartbeat : bool) then
                 log_warning (Got_invalid_heartbeat content) ;;;
                 next_interval timeout intervals total_time
               else
                 (* Got valid content *)
                 raise (LoopingCallDone (Some content))) w
        end
  end.

(** Modelled from the spec: how loopingcall.DynamicLoopingCall ends on an
    exception of the work unit.  LoopingCallDone yields its retvalue, True
    when it was built without one ("True is returned on timeout" in
    lookup_node); anything else reaches the waiter. *)
Definition loop_end (e : exn) : result value :=
  match e with
  | LoopingCallDone (Some retvalue) => Return retvalue
  | LoopingCallDone None => Return (VBool true)
  | e => Raise e
  end.

(** Modelled from the spec: loopingcall.DynamicLoopingCall, whose module
    is not part of the sources.  [start().wait()] invokes the work unit;
    a returned number is slept for and the work unit is invoked again;
    LoopingCallDone ends the loop with its retvalue, True when it has
    none; any other exception is handed to the waiter.  [fuel] bounds
    the number of invocations; [None] is "still looping". *)
Fixpoint DynamicLoopingCall (fuel : nat) (f : M Z) (w : world)
    : option (result value * world) :=
  match fuel with
  | O => None
  | S fuel =>
      match f w with
      | (Return idle, w) => DynamicLoopingCall fuel f (snd (sleep idle w))
      | (Raise e, w) => Some (loop_end e, w)
      end
  end.

Definition lookup_node (fuel : nat) (self : APIClient)
    (hardware_info : value) (timeout starting_interval : Z) (w : world)
    : option (result value * world) :=
  match new_list [starting_interval] w with
  | (Raise e, w) => Some (Raise e, w)
  | (Return intervals, w) =>
      match new_list [0] w with
      | (Raise e, w) => Some (Raise e, w)
      | (Return total_time, w) =>
          match DynamicLoopingCall fuel
                  (_do_lookup self hardware_info timeout intervals total_time)
                  w with
          | None => None
          | Some (Raise e, w) => Some (Raise e, w)
          | Some (Return node_content, w) =>
              (* True is returned on timeout *)
              if is_True node_content then
                Some (Raise (Error LookupNodeError
                   "Could not look up node info. Check logs for details."), w)
              else Some (Return node_content, w)
          end
      end
  end.

(** *** Heartbeat *)

(** Python floats are kept abstract: [float] is the builtin applied to
    a string; [None] is the ValueError it raises when the string is not
    a number. *)
Variable pyfloat : Type.
Variable float : string -> option pyfloat.

Definition _get_agent_url (advertise_address : string * Z) : string :=
  "http://" +:+ fst advertise_address +:+ ":" +:+ pretty (snd advertise_address).

Definition heartbeat (self : APIClient) (uuid : string)
    (advertise_address : string * Z) : M pyfloat :=
  let path := "/" +:+ api_version +:+ "/nodes/" +:+ uuid
              +:+ "/vendor_passthru/heartbeat" in
  let data :=
    VDict {[ "agent_url" := VStr (_get_agent_url advertise_address) ]} in
  response <- try_except (_request self "POST" path (Some data))
                (fun e => raise (Error HeartbeatError (str e))) ;;
  if negb (status_code response =? codes.NO_CONTENT)%Z then
    raise (Error HeartbeatError
             ("Invalid status code: " +:+ pretty (status_code response)))
  else
    match headers response "Heartbeat-Before" with
    | None => raise (Error HeartbeatError "Missing Heartbeat-Before header")
    | Some h =>
        match float h with
        | Some x => ret x
        | None =>
            raise (Error HeartbeatError "Invalid Heartbeat-Before header")
        end
    end.

(* ------------------------------------------------------------------ *)
(** ** The lookup step and the retry loop, seen without the heap       *)
(* ------------------------------------------------------------------ *)

(** What one run of [_do_lookup] decides before it reaches
    [next_interval] or raises: retry after warning [m], stop with the
    decoded body, or let an exception out. *)
Inductive signal : Type :=
  | Continue (m : warning)
  | Done (content : value)
  | Escape (e : exn).

(** The checks [_do_lookup] makes on a decoded body. *)
Definition validate (content : value) : signal :=
  match contains "node" content with
  | Raise e => Escape e
  | Return false => Continue (Got_invalid_node_data content)
  | Return true =>
      match getitem content "node" with
      | Raise e => Escape e
      | Return node =>
          match contains "uuid" node with
          | Raise e => Escape e
          | Return false => Continue (Got_invalid_node_data content)
          | Return true =>
              match contains "heartbeat_timeout" content with
              | Raise e => Escape e
              | Return false => Continue (Got_invalid_heartbeat content)
              | Return true => Done content
              end
          end
      end
  end.

(** What [_do_lookup] decides about a result of [_request]. *)
Definition judge (r : result response) : signal :=
  match r with
  | Raise e => Continue (POST_failed (str e))
  | Return response =>
      if negb (status_code response =? codes.OK)%Z then
        Continue (Invalid_status_code (status_code response))
      else
        match json_loads (content response) with
        | Raise e => Continue (Error_decoding_response (str e))
        | Return content => validate content
        end
  end.

Definition lookup_path : string :=
  "/" +:+ api_version +:+ "/drivers/teeth/vendor_passthru/lookup".

(** The request [_do_lookup] hands to the session. *)
Definition lookup_request (self : APIClient) (payload : string) : request :=
  Request "POST" (api_url self +:+ lookup_path)
    [("Content-Type", "application/json"); ("Accept", "application/json")]
    (Some payload).

(** The requests issued and the signal given by the run of [_do_lookup]
    that starts when [n] requests have been sent. *)
Definition lookup_signal (self : APIClient) (hardware_info : value) (n : nat)
    : list request * signal :=
  match encode (VDict {[ "hardware" := hardware_info ]}) with
  | Raise e => ([], judge (Raise e))
  | Return payload =>
      let req := lookup_request self payload in
      ([req], judge (session_request n req))
  end.

(** The two lists of [lookup_node], by value. *)
Record RetryState : Type := {
  rs_intervals : list Z;
  rs_total_time : Z
}.

(** What a run of the loop leaves behind. *)
Record run : Type := Run {
  final : RetryState;
  requests : list request;
  warnings : list warning;
  sleeps : list Z
}.

Definition prepend (reqs : list request) (m : list warning) (idle : list Z)
    (rn : run) : run :=
  Run (final rn) (reqs ++ requests rn) (m ++ warnings rn) (idle ++ sleeps rn).

Fixpoint retry_loop (fuel : nat) (self : APIClient) (hardware_info : value)
    (timeout : Z) (n : nat) (st : RetryState) : option (result value * run) :=
  match fuel with
  | O => None
  | S fuel =>
      match lookup_signal self hardware_info n with
      | (reqs, Done content) => Some (Return content, Run st reqs [] [])
      | (reqs, Escape e) => Some (loop_end e, Run st reqs [] [])
      | (reqs, Continue m) =>
          match last (rs_intervals st) with
          | None => Some (Raise (Error IndexError "list index out of range"),
                          Run st reqs [m] [])
          | Some x =>
              let new_interval := x * 2 in
              if (rs_total_time st + new_interval >? timeout)%Z then
                Some (Return (VBool true), Run st reqs [m] [])
              else
                match retry_loop fuel self hardware_info timeout
                        (n + length reqs)
                        {| rs_intervals := rs_intervals st ++ [new_interval];
                           rs_total_time := rs_total_time st + new_interval |}
                with
                | None => None
                | Some (r, rn) => Some (r, prepend reqs [m] [new_interval] rn)
                end
          end
      end
  end.

(** The finished runs of the loop, as a relation: [loops n st r rn] when
    the loop entered with [n] requests sent and state [st] ends with [r]
    and leaves [rn]. *)
Inductive loops (self : APIClient) (hardware_info : value) (timeout : Z)
    : nat -> RetryState -> result value -> run -> Prop :=
  | loops_done n st reqs content :
      lookup_signal self hardware_info n = (reqs, Done content) ->
      loops self hardware_info timeout n st (Return content) (Run st reqs [] [])
  | loops_escape n st reqs e :
      lookup_signal self hardware_info n = (reqs, Escape e) ->
      loops self hardware_info timeout n st (loop_end e) (Run st reqs [] [])
  | loops_no_interval n st reqs m :
      lookup_signal self hardware_info n = (reqs, Continue m) ->
      last (rs_intervals st) = None ->
      loops self hardware_info timeout n st
        (Raise (Error IndexError "list index out of range")) (Run st reqs [m] [])
  | loops_deadline n st reqs m x :
      lookup_signal self hardware_info n = (reqs, Continue m) ->
      last (rs_intervals st) = Some x ->
      rs_total_time st + x * 2 > timeout ->
      loops self hardware_info timeout n st
        (Return (VBool true)) (Run st reqs [m] [])
  | loops_retry n st reqs m x r rn :
      lookup_signal self hardware_info n = (reqs, Continue m) ->
      last (rs_intervals st) = Some x ->
      rs_total_time st + x * 2 <= timeout ->
      loops self hardware_info timeout (n + length reqs)
        {| rs_intervals := rs_intervals st ++ [x * 2];
           rs_total_time := rs_total_time st + x * 2 |} r rn ->
      loops self hardware_info timeout n st r (prepend reqs [m] [x * 2] rn).

(** The world after a run of the loop on the lists at [il] and [tl]. *)
Definition after_run (il tl : loc) (w : world) (rn : run) : world :=
  World (<[il := rs_intervals (final rn)]>
           (<[tl := [rs_total_time (final rn)]]> (heap w)))
        (sent w ++ requests rn) (log w ++ warnings rn) (slept w ++ sleeps rn).

(** [lookup_node]'s reading of what the loop hands back. *)
Definition node_or_error (r : result value) : result value :=
  match r with
  | Return node_content =>
      if is_True node_content then
        Raise (Error LookupNodeError
                 "Could not look up node info. Check logs for details.")
      else Return node_content
  | Raise e => Raise e
  end.

(** The world after [lookup_node]: two more list objects. *)
Definition after_lookup (w : world) (rn : run) : world :=
  World (heap w ++ [rs_intervals (final rn); [rs_total_time (final rn)]])
        (sent w ++ requests rn) (log w ++ warnings rn) (slept w ++ sleeps rn).

(** Sum of a list of durations. *)
Definition cumulative (l : list Z) : Z := foldr Z.add 0 l.

(** The n-th interval of the doubling sequence seeded with [s]. *)
Definition backoff (s : Z) (n : nat) : Z := s * 2 ^ Z.of_nat n.

(** The invariant of the loop on the lists at [il] and [tl]: the
    intervals are the seed followed by what has been slept since [base],
    and the counter holds the sum of what has been slept. *)
Definition counted_state (s : Z) (il tl : loc) (base : list Z) (w : world)
    : Prop :=
  exists idle,
    heap w !! il = Some (s :: idle) /\
    heap w !! tl = Some [cumulative idle] /\
    slept w = base ++ idle.

(** Number of requests sent when the j-th next invocation starts, as long
    as the invocations before it ask for a retry and are granted one. *)
Fixpoint attempt_index (self : APIClient) (hardware_info : value)
    (n : nat) (j : nat) : nat :=
  match j with
  | O => n
  | S j =>
      attempt_index self hardware_info
        (n + length (fst (lookup_signal self hardware_info n))) j
  end.

(** A string of [k] slashes. *)
Fixpoint slashes (k : nat) : string :=
  match k with
  | O => EmptyString
  | S k => String "/"%char (slashes k)
  end.

(** The payload of a lookup, and the outcome of its [_request]. *)
Definition lookup_data (hardware_info : value) : value :=
  VDict {[ "hardware" := hardware_info ]}.

(** The failures of a [_request] that [_do_lookup] answers with a
    warning and a retry: an exception, a status other than 200, a body
    that json.loads rejects. *)
Definition retryable (rq : result response) : Prop :=
  match rq with
  | Raise _ => True
  | Return resp =>
      status_code resp <> codes.OK \/
      exists e, json_loads (content resp) = Raise e
  end.

(** A decoded body that passes the checks of [_do_lookup]. *)
Definition accepted (c : value) : Prop :=
  exists d node hb,
    c = VDict d /\ d !! "node" = Some node /\
    contains "uuid" node = Return true /\
    d !! "heartbeat_timeout" = Some hb.

(* ------------------------------------------------------------------ *)
(** ** Lemmas on the primitives                                        *)
(* ------------------------------------------------------------------ *)

Ltac settle_heartbeat :=
  repeat split; intros;
  repeat match goal with
         | H : exists _, _ |- _ => destruct H
         | H : _ /\ _ |- _ => destruct H
         | H : Return _ = Return _ |- _ => injection H as H; subst
         | H : Raise _ = Raise _ |- _ => injection H as H; subst
         end;
  try congruence; try discriminate; eauto 10.


Lemma next_interval_run (timeout : Z) (il tl : loc) (w : world)
    (ivs : list Z) (t : Z) (rest : list Z) :
  il <> tl ->
  heap w !! il = Some ivs ->
  heap w !! tl = Some (t :: rest) ->
  next_interval timeout il tl w =
    match last ivs with
    | None => (Raise (Error IndexError "list index out of range"), w)
    | Some x =>
        if (t + x * 2 >? timeout)%Z then (Raise (LoopingCallDone None), w)
        else (Return (x * 2),
              set_heap (<[il := (ivs ++ [x * 2])]>
                          (<[tl := (t + x * 2) :: rest]> (heap w))) w)
    end.
Proof.
  intros Hne Hil Htl.
  unfold next_interval, list_last, list_first, list_set_first, list_append,
    bind, deref, store, ret, raise.
  rewrite Hil. destruct (last ivs) as [x|]; [|reflexivity].
  rewrite Htl. destruct (t + x * 2 >? timeout)%Z; [reflexivity|].
  repeat (rewrite Htl; cbn).
  rewrite list_lookup_insert_ne by congruence. rewrite Hil. reflexivity.
Qed.

Lemma _do_lookup_signal (self : APIClient) (hardware_info : value)
    (timeout : Z) (il tl : loc) (w : world) :
  _do_lookup self hardware_info timeout il tl w =
    match lookup_signal self hardware_info (length (sent w)) with
    | (reqs, Continue m) =>
        next_interval timeout il tl
          (World (heap w) (sent w ++ reqs) (log w ++ [m]) (slept w))
    | (reqs, Done content) =>
        (Raise (LoopingCallDone (Some content)),
         World (heap w) (sent w ++ reqs) (log w) (slept w))
    | (reqs, Escape e) =>
        (Raise e, World (heap w) (sent w ++ reqs) (log w) (slept w))
    end.
Proof.
  unfold _do_lookup, lookup_signal, _request, session_call, lookup_path.
  unfold bind at 1 2. unfold lift at 1. unfold ret at 1.
  destruct (encode _) as [s|e]; simpl.
  - destruct (session_request _ _) as [resp|e]; simpl.
    + destruct (negb _); [reflexivity|].
      destruct (json_loads _) as [c|e]; simpl; [|reflexivity].
      unfold validate, not_in, bind, lift, ret, raise, log_warning.
      destruct (contains "node" c) as [[|]|]; simpl; try reflexivity.
      destruct (getitem c "node") as [node|]; simpl; try reflexivity.
      destruct (contains "uuid" node) as [[|]|]; simpl; try reflexivity.
      destruct (contains "heartbeat_timeout" c) as [[|]|]; reflexivity.
    + reflexivity.
  - destruct w; simpl. rewrite app_nil_r. reflexivity.
Qed.

Lemma insert_two_fresh (h : list (list Z)) (a b x y : list Z) :
  <[length h := a]> (<[S (length h) := b]> (h ++ [x; y])) = h ++ [a; b].
Proof. induction h as [|c h IH]; simpl; [reflexivity|]. f_equal. exact IH. Qed.

Lemma insert_overwritten (h : list (list Z)) (il tl : loc)
    (a b a' b' : list Z) :
  il <> tl ->
  <[il := a']> (<[tl := b']> (<[il := a]> (<[tl := b]> h))) =
  <[il := a']> (<[tl := b']> h).
Proof.
  intros Hne.
  rewrite (list_insert_insert_ne _ tl il b' a) by congruence.
  rewrite list_insert_insert_eq.
  rewrite list_insert_insert_eq. reflexivity.
Qed.

Lemma DynamicLoopingCall_retry_loop (self : APIClient) (hardware_info : value)
    (timeout : Z) (il tl : loc) (fuel : nat) :
  il <> tl ->
  forall (w : world) (st : RetryState),
  heap w !! il = Some (rs_intervals st) ->
  heap w !! tl = Some [rs_total_time st] ->
  DynamicLoopingCall fuel (_do_lookup self hardware_info timeout il tl) w =
    match retry_loop fuel self hardware_info timeout (length (sent w)) st with
    | None => None
    | Some (r, rn) => Some (r, after_run il tl w rn)
    end.
Proof.
  intros Hne. induction fuel as [|fuel IH]; intros w [ivs t] Hil Htl;
    simpl in *; [reflexivity|].
  assert (Hid : <[il := ivs]> (<[tl := [t]]> (heap w)) = heap w).
  { rewrite (list_insert_id _ tl) by exact Htl. apply list_insert_id, Hil. }
  rewrite _do_lookup_signal.
  destruct (lookup_signal self hardware_info (length (sent w)))
    as [reqs [m|c|e]].
  - rewrite (next_interval_run timeout il tl _ ivs t []) by assumption.
    destruct (last ivs) as [x|]; simpl.
    + destruct (t + x * 2 >? timeout)%Z; simpl.
      * unfold after_run; simpl. rewrite Hid, app_nil_r. reflexivity.
      * rewrite (IH _ {| rs_intervals := (ivs ++ [x * 2]);
                         rs_total_time := t + x * 2 |}); simpl.
        -- rewrite length_app.
           destruct (retry_loop _ _ _ _ _ _) as [[r rn]|]; [|reflexivity].
           unfold after_run, prepend; simpl.
           rewrite insert_overwritten by exact Hne.
           rewrite <- !app_assoc. reflexivity.
        -- apply list_lookup_insert_eq.
           rewrite length_insert. eapply lookup_lt_Some, Hil.
        -- rewrite list_lookup_insert_ne by congruence.
           apply list_lookup_insert_eq. eapply lookup_lt_Some, Htl.
    + unfold after_run; simpl. rewrite Hid, app_nil_r. reflexivity.
  - unfold after_run; simpl. rewrite Hid, !app_nil_r. reflexivity.
  - unfold after_run; simpl. rewrite Hid, !app_nil_r. reflexivity.
Qed.

Lemma lookup_node_retry_loop (fuel : nat) (self : APIClient)
    (hardware_info : value) (timeout starting_interval : Z) (w : world) :
  lookup_node fuel self hardware_info timeout starting_interval w =
    match retry_loop fuel self hardware_info timeout (length (sent w))
            {| rs_intervals := [starting_interval]; rs_total_time := 0 |} with
    | None => None
    | Some (r, rn) => Some (node_or_error r, after_lookup w rn)
    end.
Proof.
  unfold lookup_node, new_list; simpl.
  assert (Hne : length (heap w) <> length (heap w ++ [[starting_interval]]))
    by (rewrite length_app; simpl; lia).
  rewrite (DynamicLoopingCall_retry_loop _ _ _ _ _ _ Hne _
             {| rs_intervals := [starting_interval]; rs_total_time := 0 |});
    simpl.
  - destruct (retry_loop _ _ _ _ _ _) as [[r rn]|]; [|reflexivity].
    assert (Hw : after_run (length (heap w))
                   (length (heap w ++ [[starting_interval]]))
                   (set_heap ((heap w ++ [[starting_interval]]) ++ [[0]])
                      (set_heap (heap w ++ [[starting_interval]]) w)) rn
                 = after_lookup w rn).
    { unfold after_run, after_lookup; simpl.
      rewrite length_app, Nat.add_1_r, <- app_assoc; simpl.
      rewrite insert_two_fresh. reflexivity. }
    rewrite Hw. destruct r as [v|e]; simpl; [|reflexivity].
    destruct (is_True v); reflexivity.
  - rewrite lookup_app_l by (rewrite length_app; simpl; lia).
    apply list_lookup_middle. reflexivity.
  - rewrite length_app, Nat.add_1_r. simpl.
    apply (list_lookup_middle _ [] _ (S (length (heap w)))).
    rewrite length_app; simpl; lia.
Qed.

(* ------------------------------------------------------------------ *)
(** ** The finished runs of the loop                                   *)
(* ------------------------------------------------------------------ *)

Lemma retry_loop_loops (self : APIClient) (hardware_info : value)
    (timeout : Z) (fuel : nat) :
  forall n st r rn,
  retry_loop fuel self hardware_info timeout n st = Some (r, rn) ->
  loops self hardware_info timeout n st r rn.
Proof.
  induction fuel as [|fuel IH]; intros n st r rn H; simpl in H; [discriminate|].
  destruct (lookup_signal self hardware_info n) as [reqs [m|c|e]] eqn:Hsig.
  - destruct (last (rs_intervals st)) as [x|] eqn:Hlast.
    + destruct (rs_total_time st + x * 2 >? timeout)%Z eqn:Hgt.
      * inversion H; subst. eapply loops_deadline; eauto. lia.
      * destruct (retry_loop fuel _ _ _ _ _) as [[r' rn']|] eqn:Hrec;
          [|discriminate].
        inversion H; subst. eapply loops_retry; eauto. lia.
    + inversion H; subst. eapply loops_no_interval; eauto.
  - inversion H; subst. eapply loops_done; eauto.
  - inversion H; subst. eapply loops_escape; eauto.
Qed.

(** More fuel does not change a finished run. *)
Lemma retry_loop_more_fuel (self : APIClient) (hardware_info : value)
    (timeout : Z) (fuel : nat) :
  forall fuel' n st r rn,
  (fuel <= fuel')%nat ->
  retry_loop fuel self hardware_info timeout n st = Some (r, rn) ->
  retry_loop fuel' self hardware_info timeout n st = Some (r, rn).
Proof.
  induction fuel as [|fuel IH]; intros fuel' n st r rn Hle H; simpl in H;
    [discriminate|].
  destruct fuel' as [|fuel']; [lia|]. simpl.
  destruct (lookup_signal self hardware_info n) as [reqs [m|c|e]]; auto.
  destruct (last (rs_intervals st)) as [x|]; auto.
  destruct (rs_total_time st + x * 2 >? timeout)%Z; auto.
  destruct (retry_loop fuel _ _ _ _ _) as [[r' rn']|] eqn:Hrec; [|discriminate].
  rewrite (IH fuel' _ _ _ _ ltac:(lia) Hrec). exact H.
Qed.

(** With a positive last interval the loop ends: every retry adds at
    least two seconds to a total that stays within [timeout]. *)
Lemma retry_loop_terminates (self : APIClient) (hardware_info : value)
    (timeout : Z) (fuel : nat) :
  forall n st x,
  last (rs_intervals st) = Some x -> 0 < x ->
  (Z.to_nat (timeout - rs_total_time st) < fuel)%nat ->
  exists r rn, retry_loop fuel self hardware_info timeout n st = Some (r, rn).
Proof.
  induction fuel as [|fuel IH]; intros n st x Hlast Hx Hfuel; [lia|]. simpl.
  destruct (lookup_signal self hardware_info n) as [reqs [m|c|e]]; eauto.
  rewrite Hlast.
  destruct (rs_total_time st + x * 2 >? timeout)%Z eqn:Hgt; eauto.
  destruct (IH (n + length reqs)%nat
              {| rs_intervals := rs_intervals st ++ [x * 2];
                 rs_total_time := rs_total_time st + x * 2 |} (x * 2))
    as (r & rn & Hrec); simpl.
  - apply last_snoc.
  - lia.
  - lia.
  - rewrite Hrec. eauto.
Qed.

(* ------------------------------------------------------------------ *)
(** ** What the signals can be                                         *)
(* ------------------------------------------------------------------ *)

Lemma contains_dict (key : string) (d : gmap string value) :
  contains key (VDict d) =
    Return (match d !! key with Some _ => true | None => false end).
Proof.
  simpl. destruct (d !! key) eqn:E.
  - rewrite bool_decide_eq_true_2; eauto.
  - rewrite bool_decide_eq_false_2; [reflexivity|]. intros [? ?]; discriminate.
Qed.

Lemma contains_raises (key : string) (c : value) (e : exn) :
  contains key c = Raise e -> exists msg, e = Error TypeError msg.
Proof. destruct c; simpl; intros H; inversion H; eauto. Qed.

(** A body is accepted exactly when it is a dict, has a "node" entry on
    which ["uuid" in node] holds, and has a "heartbeat_timeout" entry. *)
Lemma validate_Done (c c' : value) :
  validate c = Done c' <->
  c' = c /\ exists d node hb, c = VDict d /\ d !! "node" = Some node /\
             contains "uuid" node = Return true /\
             d !! "heartbeat_timeout" = Some hb.
Proof.
  split.
  - unfold validate.
    destruct c as [| | | | s | l | d];
      try (simpl; intros H; discriminate H).
    + simpl. destruct (is_substring "node" s); discriminate.
    + simpl. destruct (existsb _ l); discriminate.
    + rewrite !contains_dict. simpl getitem.
      destruct (d !! "node") as [node|] eqn:Hn; [|discriminate].
      destruct (contains "uuid" node) as [[|]|] eqn:Hu; try discriminate.
      destruct (d !! "heartbeat_timeout") as [hb|] eqn:Hh; [|discriminate].
      intros H; inversion H; subst. split; [reflexivity|].
      exists d, node, hb. auto.
  - intros (-> & d & node & hb & -> & Hn & Hu & Hh).
    unfold validate. rewrite !contains_dict. simpl getitem.
    rewrite Hn, Hu, Hh. reflexivity.
Qed.

Lemma validate_Escape (c : value) (e : exn) :
  validate c = Escape e -> exists msg, e = Error TypeError msg.
Proof.
  unfold validate.
  destruct (contains "node" c) as [[|]|e0] eqn:Hc.
  - destruct c as [| | | | s | l | d]; try discriminate Hc; simpl getitem.
    + intros H; inversion H; eauto.
    + intros H; inversion H; eauto.
    + rewrite contains_dict in Hc.
      destruct (d !! "node") as [node|]; [|discriminate Hc].
      destruct (contains "uuid" node) as [[|]|e1] eqn:Hu.
      * rewrite contains_dict.
        destruct (d !! "heartbeat_timeout"); discriminate.
      * discriminate.
      * intros H; inversion H; subst. eapply contains_raises, Hu.
  - discriminate.
  - intros H; inversion H; subst. eapply contains_raises, Hc.
Qed.

Lemma judge_Done (r : result response) (c : value) :
  judge r = Done c ->
  exists resp, r = Return resp /\ status_code resp = codes.OK /\
               json_loads (content resp) = Return c /\ validate c = Done c.
Proof.
  destruct r as [resp|e]; simpl; [|discriminate].
  destruct (status_code resp =? codes.OK)%Z eqn:Hs; simpl; [|discriminate].
  destruct (json_loads (content resp)) as [c0|e] eqn:Hj; [|discriminate].
  intros H. pose proof H as H'. apply validate_Done in H' as [-> _].
  exists resp. repeat split; auto. lia.
Qed.

Lemma judge_Escape (r : result response) (e : exn) :
  judge r = Escape e -> exists msg, e = Error TypeError msg.
Proof.
  destruct r as [resp|e0]; simpl; [|discriminate].
  destruct (negb _); [discriminate|].
  destruct (json_loads (content resp)) as [c0|e1]; [|discriminate].
  apply validate_Escape.
Qed.

Lemma lookup_signal_judged (self : APIClient) (hardware_info : value)
    (n : nat) (reqs : list request) (sg : signal) :
  lookup_signal self hardware_info n = (reqs, sg) ->
  (length reqs <= 1)%nat /\ exists r, sg = judge r.
Proof.
  unfold lookup_signal.
  destruct (encode _) as [s|e]; intros H; inversion H; subst; simpl.
  - split; [lia | eauto].
  - split; [lia | exists (Raise e); reflexivity].
Qed.

Lemma lookup_signal_Done (self : APIClient) (hardware_info : value)
    (n : nat) (reqs : list request) (c : value) :
  lookup_signal self hardware_info n = (reqs, Done c) ->
  length reqs = 1%nat /\ validate c = Done c.
Proof.
  unfold lookup_signal.
  destruct (encode _); intros H; injection H as <- Hj.
  - split; [reflexivity|].
    apply judge_Done in Hj as (? & _ & _ & _ & ?). assumption.
  - discriminate.
Qed.

Lemma lookup_signal_Escape (self : APIClient) (hardware_info : value)
    (n : nat) (reqs : list request) (e : exn) :
  lookup_signal self hardware_info n = (reqs, Escape e) ->
  exists msg, e = Error TypeError msg.
Proof.
  intros H. apply lookup_signal_judged in H as [_ [r Hr]].
  symmetry in Hr. eapply judge_Escape, Hr.
Qed.

(** A dict without "node", or whose "node" is a dict without "uuid", or
    whose "node" is a dict and which has no "heartbeat_timeout", asks for
    a retry. *)
Lemma validate_missing_fields (d : gmap string value) :
  d !! "node" = None \/
  (exists nd, d !! "node" = Some (VDict nd) /\
              (nd !! "uuid" = None \/ d !! "heartbeat_timeout" = None)) ->
  exists m, validate (VDict d) = Continue m.
Proof.
  unfold validate. rewrite !contains_dict. simpl getitem.
  intros [Hn | (nd & Hn & H)]; rewrite Hn; [eauto|].
  rewrite contains_dict.
  destruct (nd !! "uuid") eqn:Hu; [|eauto].
  destruct H as [H|H]; [discriminate|]. rewrite H. eauto.
Qed.

Lemma Done_not_True (c : value) : validate c = Done c -> is_True c = false.
Proof.
  intros H. apply validate_Done in H as (_ & d & ? & ? & -> & _). reflexivity.
Qed.

(* ------------------------------------------------------------------ *)
(** ** Shape of a finished run                                         *)
(* ------------------------------------------------------------------ *)

Lemma backoff_0 (s : Z) : backoff s 0 = s.
Proof. unfold backoff. simpl. lia. Qed.

Lemma backoff_S (s : Z) (n : nat) : backoff s (S n) = backoff (s * 2) n.
Proof. unfold backoff. rewrite Nat2Z.inj_succ, Z.pow_succ_r; lia. Qed.

Lemma backoff_double (s : Z) (n : nat) : backoff s (S n) = 2 * backoff s n.
Proof. unfold backoff. rewrite Nat2Z.inj_succ, Z.pow_succ_r; lia. Qed.

Lemma backoff_pos (s : Z) (n : nat) : 0 < s -> 0 < backoff s n.
Proof. intros Hs. unfold backoff. apply Z.mul_pos_pos; [lia|]. lia. Qed.

Lemma backoff_seq_shift (x : Z) (k a : nat) :
  map (backoff x) (seq (S a) k) = map (backoff (x * 2)) (seq a k).
Proof.
  rewrite <- seq_shift, map_map. apply map_ext. intros j. apply backoff_S.
Qed.

Section Runs.

Variables (self : APIClient) (hardware_info : value) (timeout : Z).

(** The final lists are the initial ones extended by what was slept. *)
Lemma loops_final n st r rn :
  loops self hardware_info timeout n st r rn ->
  rs_intervals (final rn) = rs_intervals st ++ sleeps rn /\
  rs_total_time (final rn) = rs_total_time st + cumulative (sleeps rn).
Proof.
  induction 1 as [ | | | | n st reqs m x r rn Hsig Hlast Hle Hrec [IHi IHt]];
    simpl; rewrite ?app_nil_r; try (split; [reflexivity | lia]).
  simpl in *. rewrite IHi, IHt, <- app_assoc. split; [reflexivity | lia].
Qed.

(** Every sleep is the double of the interval before it. *)
Lemma loops_doubling n st r rn :
  loops self hardware_info timeout n st r rn ->
  forall x, last (rs_intervals st) = Some x ->
  sleeps rn = map (backoff x) (seq 1 (length (sleeps rn))).
Proof.
  induction 1 as [ | | | | n st reqs m x r rn Hsig Hlast Hle Hrec IH];
    intros x0 Hx0; simpl; try reflexivity.
  rewrite Hlast in Hx0. injection Hx0 as <-.
  rewrite backoff_seq_shift, <- IH by apply last_snoc.
  reflexivity.
Qed.

(** The counted time never exceeds the budget, after any number of the
    sleeps. *)
Lemma loops_budget n st r rn :
  loops self hardware_info timeout n st r rn ->
  forall j, (0 < j <= length (sleeps rn))%nat ->
  rs_total_time st + cumulative (take j (sleeps rn)) <= timeout.
Proof.
  induction 1 as [ | | | | n st reqs m x r rn Hsig Hlast Hle Hrec IH];
    intros j Hj; simpl in *; try lia.
  destruct j as [|j]; [lia|]. simpl.
  destruct j as [|j].
  - rewrite take_0. simpl. lia.
  - specialize (IH (S j) ltac:(lia)). simpl in IH. lia.
Qed.

(** One request at most per invocation, one invocation more than sleeps. *)
Lemma loops_counts n st r rn :
  loops self hardware_info timeout n st r rn ->
  (length (requests rn) <= S (length (sleeps rn)))%nat /\
  (length (sleeps rn) <= length (warnings rn) <= S (length (sleeps rn)))%nat.
Proof.
  induction 1 as [n st reqs c Hsig | n st reqs e Hsig | n st reqs m Hsig
                 | n st reqs m x Hsig
                 | n st reqs m x r rn Hsig Hlast Hle Hrec [IHr IHw]];
    apply lookup_signal_judged in Hsig as [Hlen _]; simpl in *;
    rewrite ?length_app; lia.
Qed.

(** The loop hands back True only from the deadline check. *)
Lemma loops_True n st r rn :
  loops self hardware_info timeout n st r rn ->
  r = Return (VBool true) ->
  exists x, last (rs_intervals (final rn)) = Some x /\
            rs_total_time (final rn) + x * 2 > timeout.
Proof.
  induction 1 as [n st reqs c Hsig | n st reqs e Hsig | n st reqs m Hsig
                 | n st reqs m x Hsig
                 | n st reqs m x r rn Hsig Hlast Hle Hrec IH];
    intros Hr; simpl.
  - injection Hr as ->.
    apply lookup_signal_Done in Hsig as [_ Hv].
    apply Done_not_True in Hv. discriminate.
  - apply lookup_signal_Escape in Hsig as [msg ->]. discriminate.
  - discriminate.
  - eauto.
  - auto.
Qed.

(** What a finished run can hand back when the intervals are not empty. *)
Lemma loops_result n st r rn :
  loops self hardware_info timeout n st r rn ->
  rs_intervals st <> [] ->
  (exists c, r = Return c /\ validate c = Done c) \/
  r = Return (VBool true) \/
  (exists msg, r = Raise (Error TypeError msg)).
Proof.
  induction 1 as [n st reqs c Hsig | n st reqs e Hsig | n st reqs m Hsig Hlast
                 | n st reqs m x Hsig
                 | n st reqs m x r rn Hsig Hlast Hle Hrec IH];
    intros Hne.
  - apply lookup_signal_Done in Hsig as [_ Hv]. eauto.
  - apply lookup_signal_Escape in Hsig as [msg ->]. simpl. eauto.
  - apply last_None in Hlast. contradiction.
  - auto.
  - apply IH. simpl. intros E. apply app_eq_nil in E as [_ E]. discriminate.
Qed.

(** The loop ends on a warning that no sleep follows exactly when it
    hands back True. *)
Lemma loops_ends_on_warning n st r rn :
  loops self hardware_info timeout n st r rn ->
  rs_intervals st <> [] ->
  (length (warnings rn) = S (length (sleeps rn)) <-> r = Return (VBool true)).
Proof.
  induction 1 as [n st reqs c Hsig | n st reqs e Hsig | n st reqs m Hsig Hlast
                 | n st reqs m x Hsig
                 | n st reqs m x r rn Hsig Hlast Hle Hrec IH];
    intros Hne; simpl.
  - apply lookup_signal_Done in Hsig as [_ Hv]. apply Done_not_True in Hv.
    split; [discriminate|]. intros E; injection E as ->. discriminate.
  - apply lookup_signal_Escape in Hsig as [msg ->]. simpl.
    split; discriminate.
  - apply last_None in Hlast. contradiction.
  - split; reflexivity.
  - rewrite <- IH.
    + split; lia.
    + simpl. intros E. apply app_eq_nil in E as [_ E]. discriminate.
Qed.

Lemma node_or_error_LookupNodeError n st r rn :
  loops self hardware_info timeout n st r rn ->
  rs_intervals st <> [] ->
  ((exists msg, node_or_error r = Raise (Error LookupNodeError msg)) <->
   r = Return (VBool true)).
Proof.
  intros Hrun Hne.
  destruct (loops_result _ _ _ _ Hrun Hne) as [(c & -> & Hv) | [-> | (msg & ->)]];
    simpl.
  - apply Done_not_True in Hv as Hf. rewrite Hf.
    split; [intros [? ?]; discriminate|].
    intros E; injection E as ->. discriminate.
  - split; eauto.
  - split; [intros [? ?]; discriminate | discriminate].
Qed.

Lemma lookup_node_loops (fuel : nat) (starting_interval : Z) (w : world)
    (r : result value) (w' : world) :
  lookup_node fuel self hardware_info timeout starting_interval w
    = Some (r, w') ->
  exists r0 rn,
    loops self hardware_info timeout (length (sent w))
      {| rs_intervals := [starting_interval]; rs_total_time := 0 |} r0 rn /\
    r = node_or_error r0 /\ w' = after_lookup w rn.
Proof.
  rewrite lookup_node_retry_loop.
  destruct (retry_loop _ _ _ _ _ _) as [[r0 rn]|] eqn:Hrun; [|discriminate].
  intros H; injection H as <- <-.
  exists r0, rn. split; [|auto]. eapply retry_loop_loops, Hrun.
Qed.

(** With a positive starting interval lookup_node ends, given fuel
    above the number of seconds of the budget. *)
Lemma lookup_node_terminates (fuel : nat) (starting_interval : Z) (w : world) :
  0 < starting_interval ->
  (Z.to_nat timeout < fuel)%nat ->
  exists r w',
    lookup_node fuel self hardware_info timeout starting_interval w
      = Some (r, w').
Proof.
  intros Hs Hfuel. rewrite lookup_node_retry_loop.
  destruct (retry_loop_terminates self hardware_info timeout fuel
              (length (sent w))
              {| rs_intervals := [starting_interval]; rs_total_time := 0 |}
              starting_interval eq_refl Hs) as (r & rn & ->).
  - simpl. rewrite Z.sub_0_r. exact Hfuel.
  - eauto.
Qed.

End Runs.

Lemma intervals_shape (s : Z) (k : nat) :
  s :: map (backoff s) (seq 1 k) = map (backoff s) (seq 0 (S k)).
Proof. simpl. rewrite backoff_0. reflexivity. Qed.

Lemma last_intervals (s : Z) (k : nat) :
  last (map (backoff s) (seq 0 (S k))) = Some (backoff s k).
Proof. rewrite seq_S, map_app. simpl. apply last_snoc. Qed.

(* ------------------------------------------------------------------ *)
(** ** The deadline                                                    *)
(* ------------------------------------------------------------------ *)

(** C1. The deadline check comes before the sleep and the retry.
    Step: when the work unit has to retry in a state where total_time plus
    the doubled last interval exceeds timeout, the loop ends at once with
    True (the outcome without a value), whatever fuel is left: nothing is
    slept, nothing is requested again, the lists are untouched.
    Run: in every finished run of lookup_node the counted time after each
    sleep is within timeout, at most one request more than sleeps is
    issued, the run ended on a retry that was refused exactly when
    lookup_node raises LookupNodeError, and then the next doubled interval
    would have exceeded timeout. *)
Theorem timeout_respected :
  (forall self hardware_info timeout il tl w ivs x t reqs m,
     il <> tl ->
     heap w !! il = Some ivs -> last ivs = Some x ->
     heap w !! tl = Some [t] ->
     lookup_signal self hardware_info (length (sent w)) = (reqs, Continue m) ->
     t + x * 2 > timeout ->
     forall fuel,
     DynamicLoopingCall (S fuel) (_do_lookup self hardware_info timeout il tl) w
       = Some (Return (VBool true),
               World (heap w) (sent w ++ reqs) (log w ++ [m]) (slept w)))
  /\
  (forall fuel self hardware_info timeout starting_interval w r w',
     lookup_node fuel self hardware_info timeout starting_interval w
       = Some (r, w') ->
     exists idle,
       slept w' = slept w ++ idle /\
       (length (sent w') <= length (sent w) + S (length idle))%nat /\
       (forall j, (0 < j <= length idle)%nat ->
                  cumulative (take j idle) <= timeout) /\
       ((exists msg, r = Raise (Error LookupNodeError msg)) <->
        length (log w') = (length (log w) + S (length idle))%nat) /\
       ((exists msg, r = Raise (Error LookupNodeError msg)) ->
        cumulative idle + backoff starting_interval (S (length idle))
          > timeout)).
Proof.
  split.
  - intros self hardware_info timeout il tl w ivs x t reqs m
      Hne Hil Hlast Htl Hsig Hgt fuel.
    simpl. rewrite _do_lookup_signal, Hsig.
    rewrite (next_interval_run timeout il tl _ ivs t []) by assumption.
    rewrite Hlast.
    destruct (t + x * 2 >? timeout)%Z eqn:E; [reflexivity | lia].
  - intros fuel self hardware_info timeout s w r w' Hrun.
    apply lookup_node_loops in Hrun as (r0 & rn & Hloops & -> & ->).
    assert (Hne : rs_intervals
                    {| rs_intervals := [s]; rs_total_time := 0 |} <> [])
      by discriminate.
    pose proof (loops_final _ _ _ _ _ _ _ Hloops) as [Hi Ht].
    pose proof (loops_doubling _ _ _ _ _ _ _ Hloops s eq_refl) as Hd.
    pose proof (loops_budget _ _ _ _ _ _ _ Hloops) as Hb.
    pose proof (loops_counts _ _ _ _ _ _ _ Hloops) as [Hc _].
    pose proof (node_or_error_LookupNodeError _ _ _ _ _ _ _ Hloops Hne) as He.
    pose proof (loops_ends_on_warning _ _ _ _ _ _ _ Hloops Hne) as Hw.
    simpl in *.
    exists (sleeps rn). repeat split.
    + rewrite length_app. lia.
    + intros j Hj. specialize (Hb j Hj). lia.
    + intros H. rewrite length_app. apply He in H. apply Hw in H. lia.
    + rewrite length_app. intros H. apply He, Hw. lia.
    + intros H. apply He in H.
      destruct (loops_True _ _ _ _ _ _ _ Hloops H) as (x & Hlast & Hgt).
      rewrite Hi, Hd, intervals_shape, last_intervals in Hlast.
      injection Hlast as <-. rewrite backoff_double. lia.
Qed.

(* ------------------------------------------------------------------ *)
(** ** A service that always answers 500                               *)
(* ------------------------------------------------------------------ *)

Lemma lookup_signal_status (self : APIClient) (hardware_info : value)
    (payload : string) (n : nat) (resp : response) :
  encode (VDict {[ "hardware" := hardware_info ]}) = Return payload ->
  session_request n (lookup_request self payload) = Return resp ->
  status_code resp <> codes.OK ->
  lookup_signal self hardware_info n =
    ([lookup_request self payload],
     Continue (Invalid_status_code (status_code resp))).
Proof.
  intros Henc Hresp Hs. unfold lookup_signal. rewrite Henc.
  cbv zeta. rewrite Hresp. simpl.
  destruct (status_code resp =? codes.OK)%Z eqn:E; [lia | reflexivity].
Qed.

(** C2 (as the code has it). With an encoder that succeeds and a service
    that answers 500 to every request, lookup_node with timeout 3 and
    starting_interval 1 issues two requests separated by one sleep of 2
    seconds (the seed 1 is not slept; the counted time is 0, then 2); the
    next interval, 4, would bring the counted time to 6 > 3, so the loop
    stops and lookup_node raises LookupNodeError, with any fuel from 2. *)
Theorem scenario_B self hardware_info payload w fuel :
  encode (VDict {[ "hardware" := hardware_info ]}) = Return payload ->
  (forall n req, exists resp,
     session_request n req = Return resp /\ status_code resp = 500) ->
  (2 <= fuel)%nat ->
  let req := lookup_request self payload in
  lookup_node fuel self hardware_info 3 1 w =
    Some (Raise (Error LookupNodeError
                   "Could not look up node info. Check logs for details."),
          World (heap w ++ [[1; 2]; [2]]) (sent w ++ [req; req])
                (log w ++ [Invalid_status_code 500; Invalid_status_code 500])
                (slept w ++ [2]))
  /\ backoff 1 2 = 4 /\ cumulative [2] + backoff 1 2 = 6.
Proof.
  intros Henc H500 Hfuel req. split; [|split; reflexivity].
  assert (Hsig : forall n, lookup_signal self hardware_info n =
                           ([req], Continue (Invalid_status_code 500))).
  { intros n. destruct (H500 n req) as (resp & Hresp & Hs).
    rewrite (lookup_signal_status _ _ payload n resp Henc Hresp)
      by (rewrite Hs; discriminate).
    rewrite Hs. reflexivity. }
  rewrite lookup_node_retry_loop.
  destruct fuel as [|[|fuel]]; try lia.
  simpl. rewrite !Hsig. simpl. reflexivity.
Qed.

(* ------------------------------------------------------------------ *)
(** ** Bodies that decode to something else than the expected dict     *)
(* ------------------------------------------------------------------ *)

Lemma lookup_signal_decoded (self : APIClient) (hardware_info : value)
    (payload : string) (n : nat) (resp : response) (c : value) :
  encode (VDict {[ "hardware" := hardware_info ]}) = Return payload ->
  session_request n (lookup_request self payload) = Return resp ->
  status_code resp = codes.OK ->
  json_loads (content resp) = Return c ->
  lookup_signal self hardware_info n =
    ([lookup_request self payload], validate c).
Proof.
  intros Henc Hresp Hs Hc. unfold lookup_signal. rewrite Henc.
  cbv zeta. rewrite Hresp. simpl. rewrite Hs, Hc. reflexivity.
Qed.

(** C3 (what the code does on a body that decodes to None, the JSON
    null). The answer has status 200 and decodes, so no warning is logged;
    the test ['node' not in content] raises TypeError, which leaves
    _do_lookup, ends the loop and leaves lookup_node: the failure is not
    turned into a retry. *)
Theorem null_body_escapes self hardware_info payload timeout il tl w resp :
  encode (VDict {[ "hardware" := hardware_info ]}) = Return payload ->
  session_request (length (sent w)) (lookup_request self payload)
    = Return resp ->
  status_code resp = codes.OK ->
  json_loads (content resp) = Return VNone ->
  _do_lookup self hardware_info timeout il tl w =
    (Raise (Error TypeError "argument of type 'NoneType' is not iterable"),
     World (heap w) (sent w ++ [lookup_request self payload]) (log w)
           (slept w))
  /\
  forall fuel starting_interval,
    lookup_node (S fuel) self hardware_info timeout starting_interval w =
      Some (Raise (Error TypeError
                     "argument of type 'NoneType' is not iterable"),
            World (heap w ++ [[starting_interval]; [0]])
                  (sent w ++ [lookup_request self payload]) (log w) (slept w)).
Proof.
  intros Henc Hresp Hs Hc.
  pose proof (lookup_signal_decoded _ _ _ _ _ _ Henc Hresp Hs Hc) as Hsig.
  split.
  - rewrite _do_lookup_signal, Hsig. reflexivity.
  - intros fuel s. rewrite lookup_node_retry_loop. simpl. rewrite Hsig. simpl.
    unfold after_lookup. simpl. rewrite !app_nil_r. reflexivity.
Qed.

(** C6 (what the code does when "node" is a string). The body is a dict
    whose "node" entry is a string in which "uuid" occurs, with a
    "heartbeat_timeout" entry: ['uuid' not in content['node']] is a
    substring test and is false, so the body is taken as valid although
    the node has no uuid field; _do_lookup raises LoopingCallDone with it
    and lookup_node returns it. *)
Theorem string_node_accepted self hardware_info payload timeout il tl w resp
    d node hb :
  encode (VDict {[ "hardware" := hardware_info ]}) = Return payload ->
  session_request (length (sent w)) (lookup_request self payload)
    = Return resp ->
  status_code resp = codes.OK ->
  json_loads (content resp) = Return (VDict d) ->
  d !! "node" = Some (VStr node) ->
  is_substring "uuid" node = true ->
  d !! "heartbeat_timeout" = Some hb ->
  _do_lookup self hardware_info timeout il tl w =
    (Raise (LoopingCallDone (Some (VDict d))),
     World (heap w) (sent w ++ [lookup_request self payload]) (log w)
           (slept w))
  /\
  forall fuel starting_interval,
    lookup_node (S fuel) self hardware_info timeout starting_interval w =
      Some (Return (VDict d),
            World (heap w ++ [[starting_interval]; [0]])
                  (sent w ++ [lookup_request self payload]) (log w) (slept w)).
Proof.
  intros Henc Hresp Hs Hc Hnode Hsub Hhb.
  pose proof (lookup_signal_decoded _ _ _ _ _ _ Henc Hresp Hs Hc) as Hsig.
  assert (Hv : validate (VDict d) = Done (VDict d)).
  { apply validate_Done. split; [reflexivity|].
    exists d, (VStr node), hb. simpl. rewrite Hsub. auto. }
  rewrite Hv in Hsig. split.
  - rewrite _do_lookup_signal, Hsig. reflexivity.
  - intros fuel s. rewrite lookup_node_retry_loop. simpl. rewrite Hsig. simpl.
    unfold after_lookup. simpl. rewrite !app_nil_r. reflexivity.
Qed.

(* ------------------------------------------------------------------ *)
(** ** The interval sequence and the counted time                      *)
(* ------------------------------------------------------------------ *)

Lemma lookup_map_seq (f : nat -> Z) (a n i : nat) (x : Z) :
  map f (seq a n) !! i = Some x -> x = f (a + i)%nat /\ (i < n)%nat.
Proof.
  revert a i. induction n as [|n IH]; intros a [|i] H; simpl in H;
    try discriminate.
  - injection H as <-. rewrite Nat.add_0_r. split; [reflexivity | lia].
  - apply IH in H as [-> Hlt]. split; [f_equal; lia | lia].
Qed.

Lemma cumulative_take_mono (l : list Z) :
  (forall x, In x l -> 0 <= x) ->
  forall i j, (i <= j)%nat -> cumulative (take i l) <= cumulative (take j l).
Proof.
  induction l as [|y l IH]; intros Hpos i j Hij.
  - rewrite !take_nil. lia.
  - destruct i as [|i], j as [|j]; simpl; try lia.
    + assert (0 <= y) by (apply Hpos; left; reflexivity).
      assert (0 <= cumulative (take j l)).
      { specialize (IH (fun x Hx => Hpos x (or_intror Hx)) 0%nat j
                      ltac:(lia)).
        rewrite take_0 in IH. exact IH. }
      lia.
    + specialize (IH (fun x Hx => Hpos x (or_intror Hx)) i j ltac:(lia)).
      lia.
Qed.

(** C4. In every finished run of lookup_node the intervals list is the
    seed followed by the intervals slept, its N-th element is
    starting_interval * 2^N (the N-th retry sleeps that long), and each
    element is twice the one before; when starting_interval is positive
    the list is strictly increasing and the counted time after i retries
    is at most the counted time after j >= i retries. *)
Theorem backoff_doubling fuel self hardware_info timeout starting_interval
    w r w' :
  lookup_node fuel self hardware_info timeout starting_interval w
    = Some (r, w') ->
  exists idle,
    heap w' !! length (heap w) = Some (starting_interval :: idle) /\
    slept w' = slept w ++ idle /\
    (forall N x, (starting_interval :: idle) !! N = Some x ->
                 x = starting_interval * 2 ^ Z.of_nat N) /\
    (forall N x y, (starting_interval :: idle) !! N = Some x ->
                   (starting_interval :: idle) !! S N = Some y ->
                   y = 2 * x) /\
    (0 < starting_interval ->
       (forall N x y, (starting_interval :: idle) !! N = Some x ->
                      (starting_interval :: idle) !! S N = Some y ->
                      x < y) /\
       (forall i j, (i <= j)%nat ->
                    cumulative (take i idle) <= cumulative (take j idle))).
Proof.
  intros Hrun.
  apply lookup_node_loops in Hrun as (r0 & rn & Hloops & -> & ->).
  pose proof (loops_final _ _ _ _ _ _ _ Hloops) as [Hi _].
  pose proof (loops_doubling _ _ _ _ _ _ _ Hloops starting_interval eq_refl)
    as Hd.
  simpl in *. set (s := starting_interval) in *.
  set (k := length (sleeps rn)) in *.
  assert (Hnth : forall N x, (s :: sleeps rn) !! N = Some x ->
                             x = backoff s N /\ (N < S k)%nat).
  { intros N x. rewrite Hd, intervals_shape. apply lookup_map_seq. }
  exists (sleeps rn). repeat split.
  - rewrite Hi. apply list_lookup_middle. reflexivity.
  - intros N x Hx. apply Hnth in Hx as [-> _]. reflexivity.
  - intros N x y Hx Hy.
    apply Hnth in Hx as [-> _]. apply (Hnth (S N)) in Hy as [-> _].
    apply backoff_double.
  - intros N x y Hx Hy.
    apply Hnth in Hx as [-> _]. apply (Hnth (S N)) in Hy as [-> _].
    rewrite backoff_double. pose proof (backoff_pos s N H). lia.
  - apply cumulative_take_mono. intros x Hx. rewrite Hd in Hx.
    apply in_map_iff in Hx as (j & <- & _).
    pose proof (backoff_pos s j H). lia.
Qed.

Lemma lookup_second_fresh (h : list (list Z)) (a b : list Z) :
  (h ++ [a; b]) !! S (length h) = Some b.
Proof. induction h as [|c h IH]; simpl; [reflexivity | exact IH]. Qed.

Lemma cumulative_snoc (l : list Z) (x : Z) :
  cumulative (l ++ [x]) = cumulative l + x.
Proof. induction l as [|y l IH]; simpl; lia. Qed.

(** C9. The counter is the sum of the intervals appended after the seed,
    which are the durations slept; the seed is neither counted nor slept.
    This holds when lookup_node enters the loop, is kept by every step of
    the loop (a run of _do_lookup followed by the sleep it asks for, which
    is the double of the last interval and is appended), whatever the
    session answers and however long it takes, and so holds in the final
    state, where the first sleep, if any, is twice the seed and the sum is
    within timeout. *)
Theorem counted_time_is_sum_of_backoffs :
  (forall s w,
     counted_state s (length (heap w)) (S (length (heap w))) (slept w)
       (snd (new_list [0] (snd (new_list [s] w))))) /\
  (forall self hardware_info timeout s il tl base w,
     il <> tl ->
     counted_state s il tl base w ->
     match _do_lookup self hardware_info timeout il tl w with
     | (Return idle, w1) =>
         counted_state s il tl base (snd (sleep idle w1)) /\
         exists ivs x, heap w !! il = Some ivs /\ last ivs = Some x /\
                       idle = x * 2 /\
                       heap w1 !! il = Some (ivs ++ [idle])
     | (Raise _, w1) => counted_state s il tl base w1
     end) /\
  (forall fuel self hardware_info timeout s w r w',
     lookup_node fuel self hardware_info timeout s w = Some (r, w') ->
     exists idle,
       slept w' = slept w ++ idle /\
       heap w' !! length (heap w) = Some (s :: idle) /\
       heap w' !! S (length (heap w)) = Some [cumulative idle] /\
       (forall x, head idle = Some x -> x = 2 * s) /\
       (idle <> [] -> cumulative idle <= timeout)).
Proof.
  split; [|split].
  - intros s w. exists []. simpl. repeat split.
    + rewrite lookup_app_l by (rewrite length_app; simpl; lia).
      apply list_lookup_middle. reflexivity.
    + apply (list_lookup_middle _ [] _ (S (length (heap w)))).
      rewrite length_app; simpl; lia.
    + rewrite app_nil_r. reflexivity.
  - intros self hardware_info timeout s il tl base w Hne (idle & Hil & Htl & Hs).
    rewrite _do_lookup_signal.
    destruct (lookup_signal _ _ _) as [reqs [m|c|e]].
    + rewrite (next_interval_run timeout il tl _ (s :: idle)
                 (cumulative idle) []) by assumption.
      destruct (last (s :: idle)) as [x|] eqn:Hlast;
        [|exists idle; simpl; auto].
      destruct (cumulative idle + x * 2 >? timeout)%Z;
        [exists idle; simpl; auto|].
      split.
      * exists (idle ++ [x * 2]). simpl. repeat split.
        -- apply list_lookup_insert_eq. rewrite length_insert.
           eapply lookup_lt_Some, Hil.
        -- rewrite list_lookup_insert_ne by congruence.
           rewrite cumulative_snoc.
           apply list_lookup_insert_eq. eapply lookup_lt_Some, Htl.
        -- rewrite Hs, app_assoc. reflexivity.
      * exists (s :: idle), x. simpl. repeat split.
        -- exact Hil.
        -- exact Hlast.
        -- apply list_lookup_insert_eq. rewrite length_insert.
           eapply lookup_lt_Some, Hil.
    + exists idle. simpl. auto.
    + exists idle. simpl. auto.
  - intros fuel self hardware_info timeout s w r w' Hrun.
    apply lookup_node_loops in Hrun as (r0 & rn & Hloops & -> & ->).
    pose proof (loops_final _ _ _ _ _ _ _ Hloops) as [Hi Ht].
    pose proof (loops_doubling _ _ _ _ _ _ _ Hloops s eq_refl) as Hd.
    pose proof (loops_budget _ _ _ _ _ _ _ Hloops) as Hb.
    simpl in *. exists (sleeps rn). repeat split.
    + rewrite Hi. apply list_lookup_middle. reflexivity.
    + rewrite Hi, Ht, Z.add_0_l. apply lookup_second_fresh.
    + intros x Hx. rewrite Hd in Hx.
      destruct (length (sleeps rn)); simpl in Hx; [discriminate|].
      injection Hx as <-. unfold backoff. simpl. lia.
    + intros Hne. specialize (Hb (length (sleeps rn))).
      rewrite firstn_all in Hb.
      destruct (sleeps rn); [contradiction|]. simpl in *. apply Hb. lia.
Qed.

(** C10. The budget is inclusive. next_interval refuses exactly when
    total_time plus the doubled last interval is strictly greater than
    timeout; otherwise it counts and appends the interval.  When the sum
    equals timeout and the work unit has to retry, the loop goes on: the
    interval is appended, the counter becomes timeout, the interval is
    slept, and the work unit is invoked again with the fuel that is left. *)
Theorem budget_is_inclusive :
  (forall timeout il tl w ivs x t,
     il <> tl ->
     heap w !! il = Some ivs -> last ivs = Some x ->
     heap w !! tl = Some [t] ->
     (fst (next_interval timeout il tl w) = Raise (LoopingCallDone None) <->
      t + x * 2 > timeout) /\
     (t + x * 2 <= timeout ->
      next_interval timeout il tl w =
        (Return (x * 2),
         set_heap (<[il := ivs ++ [x * 2]]> (<[tl := [t + x * 2]]> (heap w)))
           w))) /\
  (forall self hardware_info timeout il tl w ivs x t reqs m fuel,
     il <> tl ->
     heap w !! il = Some ivs -> last ivs = Some x ->
     heap w !! tl = Some [t] ->
     lookup_signal self hardware_info (length (sent w)) = (reqs, Continue m) ->
     t + x * 2 = timeout ->
     DynamicLoopingCall (S fuel) (_do_lookup self hardware_info timeout il tl) w
       = DynamicLoopingCall fuel (_do_lookup self hardware_info timeout il tl)
           (World (<[il := ivs ++ [x * 2]]> (<[tl := [timeout]]> (heap w)))
                  (sent w ++ reqs) (log w ++ [m]) (slept w ++ [x * 2]))).
Proof.
  split.
  - intros timeout il tl w ivs x t Hne Hil Hlast Htl.
    rewrite (next_interval_run timeout il tl w ivs t []) by assumption.
    rewrite Hlast.
    destruct (t + x * 2 >? timeout)%Z eqn:E; simpl.
    + split; [split; [intros _; lia | reflexivity] | lia].
    + split; [split; [discriminate | lia] | reflexivity].
  - intros self hardware_info timeout il tl w ivs x t reqs m fuel
      Hne Hil Hlast Htl Hsig Heq.
    simpl. rewrite _do_lookup_signal, Hsig.
    rewrite (next_interval_run timeout il tl _ ivs t []) by assumption.
    rewrite Hlast.
    destruct (t + x * 2 >? timeout)%Z eqn:E; [lia|].
    simpl. rewrite Heq. reflexivity.
Qed.

(* ------------------------------------------------------------------ *)
(** ** Success                                                         *)
(* ------------------------------------------------------------------ *)

Lemma retry_loop_reaches_Done (self : APIClient) (hardware_info : value)
    (timeout : Z) (c : value) (k : nat) :
  forall fuel n st x reqs,
  last (rs_intervals st) = Some x ->
  (forall j, (j < k)%nat -> exists m,
     snd (lookup_signal self hardware_info
            (attempt_index self hardware_info n j)) = Continue m) ->
  lookup_signal self hardware_info (attempt_index self hardware_info n k)
    = (reqs, Done c) ->
  (forall j, (1 <= j <= k)%nat ->
     rs_total_time st + cumulative (map (backoff x) (seq 1 j)) <= timeout) ->
  (k < fuel)%nat ->
  exists rn,
    retry_loop fuel self hardware_info timeout n st = Some (Return c, rn) /\
    sleeps rn = map (backoff x) (seq 1 k) /\
    (n + length (requests rn))%nat
      = S (attempt_index self hardware_info n k).
Proof.
  induction k as [|k IH]; intros fuel n st x reqs Hlast Hcont Hdone Hbud Hfuel;
    (destruct fuel as [|fuel]; [lia|]); simpl in *.
  - rewrite Hdone. eexists. split; [reflexivity|]. simpl.
    apply lookup_signal_Done in Hdone as [-> _]. split; [reflexivity | lia].
  - destruct (Hcont 0%nat ltac:(lia)) as [m Hm]. simpl in Hm.
    destruct (lookup_signal self hardware_info n) as [reqs0 sg] eqn:Hsig.
    simpl in Hm, Hdone. subst sg. rewrite Hlast.
    pose proof (Hbud 1%nat ltac:(lia)) as H1. simpl in H1.
    assert (Hx : backoff x 1 = x * 2) by (unfold backoff; simpl; lia).
    rewrite Hx in H1.
    destruct (rs_total_time st + x * 2 >? timeout)%Z eqn:E; [lia|].
    destruct (IH fuel (n + length reqs0)%nat
                {| rs_intervals := rs_intervals st ++ [x * 2];
                   rs_total_time := rs_total_time st + x * 2 |}
                (x * 2) reqs) as (rn & Hrun & Hsl & Hreq); simpl.
    + apply last_snoc.
    + intros j Hj. specialize (Hcont (S j) ltac:(lia)). simpl in Hcont.
      rewrite Hsig in Hcont. exact Hcont.
    + exact Hdone.
    + intros j Hj. specialize (Hbud (S j) ltac:(lia)).
      rewrite <- cons_seq in Hbud. simpl map in Hbud.
      rewrite backoff_seq_shift, Hx in Hbud. simpl in Hbud. lia.
    + lia.
    + rewrite Hrun. eexists. split; [reflexivity|]. simpl. split.
      * rewrite Hsl, <- backoff_seq_shift. reflexivity.
      * rewrite length_app. lia.
Qed.

(** C5. If the invocations before the (k+1)-th ask for a retry, the
    budget allows k retries, and the (k+1)-th finds a valid body, then
    lookup_node returns that body as it was decoded, with any fuel above
    k: the run has exactly k sleeps, and the last request issued is the
    one that was answered with the body. *)
Theorem success_short_circuits fuel self hardware_info timeout
    starting_interval w k reqs content :
  (forall j, (j < k)%nat -> exists m,
     snd (lookup_signal self hardware_info
            (attempt_index self hardware_info (length (sent w)) j))
       = Continue m) ->
  lookup_signal self hardware_info
    (attempt_index self hardware_info (length (sent w)) k)
    = (reqs, Done content) ->
  (forall j, (1 <= j <= k)%nat ->
     cumulative (map (backoff starting_interval) (seq 1 j)) <= timeout) ->
  (k < fuel)%nat ->
  exists w',
    lookup_node fuel self hardware_info timeout starting_interval w
      = Some (Return content, w') /\
    slept w' = slept w ++ map (backoff starting_interval) (seq 1 k) /\
    length (sent w')
      = S (attempt_index self hardware_info (length (sent w)) k).
Proof.
  intros Hcont Hdone Hbud Hfuel.
  destruct (retry_loop_reaches_Done self hardware_info timeout content k fuel
              (length (sent w))
              {| rs_intervals := [starting_interval]; rs_total_time := 0 |}
              starting_interval reqs)
    as (rn & Hrun & Hsl & Hreq); auto.
  rewrite lookup_node_retry_loop, Hrun.
  apply lookup_signal_Done in Hdone as [_ Hv]. apply Done_not_True in Hv.
  simpl. rewrite Hv. eexists. split; [reflexivity|]. simpl.
  rewrite Hsl, length_app. auto.
Qed.

(* ------------------------------------------------------------------ *)
(** ** No state is kept between calls                                  *)
(* ------------------------------------------------------------------ *)

Lemma retry_loop_shift (self : APIClient) (hardware_info : value)
    (timeout : Z) (fuel : nat) :
  forall n1 n2 st,
  (forall i req, session_request (n1 + i) req = session_request (n2 + i) req) ->
  retry_loop fuel self hardware_info timeout n1 st =
  retry_loop fuel self hardware_info timeout n2 st.
Proof.
  induction fuel as [|fuel IH]; intros n1 n2 st Hsame; simpl; [reflexivity|].
  assert (Hsig : lookup_signal self hardware_info n1 =
                 lookup_signal self hardware_info n2).
  { unfold lookup_signal. destruct (encode _); [|reflexivity].
    cbv zeta. specialize (Hsame 0%nat). rewrite !Nat.add_0_r in Hsame.
    rewrite Hsame. reflexivity. }
  rewrite Hsig.
  destruct (lookup_signal self hardware_info n2) as [reqs [m|c|e]];
    try reflexivity.
  destruct (last (rs_intervals st)) as [x|]; [|reflexivity].
  destruct (rs_total_time st + x * 2 >? timeout)%Z; [reflexivity|].
  rewrite (IH (n1 + length reqs)%nat (n2 + length reqs)%nat); [reflexivity|].
  intros i req. rewrite <- !Nat.add_assoc. apply Hsame.
Qed.

(** C8. The two lists are new objects of every call of lookup_node, set
    to [starting_interval] and [0]: what the call does depends on the
    world it starts in only through the answers of the session.  For two
    worlds in which the session answers alike (in particular the world
    before a first call and the world it leaves), whatever their heaps,
    logs and clocks, the calls end alike, with the same result, requests,
    warnings, sleeps and final lists; and a call leaves every list object
    that existed before it as it was, the default lists of _do_lookup
    among them. *)
Theorem fresh_state_per_call fuel self hardware_info timeout starting_interval
    w1 w2 :
  (forall i req, session_request (length (sent w1) + i) req
                 = session_request (length (sent w2) + i) req) ->
  match lookup_node fuel self hardware_info timeout starting_interval w1,
        lookup_node fuel self hardware_info timeout starting_interval w2 with
  | Some (r1, w1'), Some (r2, w2') =>
      r1 = r2 /\
      (exists rn, w1' = after_lookup w1 rn /\ w2' = after_lookup w2 rn) /\
      (forall l, (l < length (heap w1))%nat -> heap w1' !! l = heap w1 !! l) /\
      (forall l, (l < length (heap w2))%nat -> heap w2' !! l = heap w2 !! l)
  | None, None => True
  | _, _ => False
  end.
Proof.
  intros Hsame. rewrite !lookup_node_retry_loop.
  rewrite (retry_loop_shift _ _ _ _ _ _ _ Hsame).
  destruct (retry_loop _ _ _ _ _ _) as [[r rn]|]; [|exact I].
  split; [reflexivity|]. split; [exists rn; auto|].
  split; intros l Hl; simpl; apply lookup_app_l; exact Hl.
Qed.

(* ------------------------------------------------------------------ *)
(** ** Heartbeat                                                       *)
(* ------------------------------------------------------------------ *)

Lemma _request_effects (self : APIClient) (method path : string)
    (data : option value) (w : world) :
  let w1 := snd (_request self method path data w) in
  heap w1 = heap w /\ log w1 = log w /\ slept w1 = slept w /\
  (length (sent w1) <= S (length (sent w)))%nat.
Proof.
  unfold _request, bind, lift, ret, session_call.
  destruct data as [d|]; simpl.
  - destruct (encode d); simpl; rewrite ?length_app; simpl; repeat split; lia.
  - rewrite length_app; simpl; repeat split; lia.
Qed.

(** C7. heartbeat makes one call of _request and no other effect (at most
    one request, no sleep).  It returns x exactly when the call returned a
    response with status 204 whose Heartbeat-Before header is present and
    is read by float as x (so for the header 10.5 it returns what float
    makes of "10.5").  Otherwise it raises HeartbeatError: with the text
    of the exception when _request raised, with the status when it is not
    204, with "Missing Heartbeat-Before header" when the header is absent
    and "Invalid Heartbeat-Before header" when float rejects it. *)
Theorem heartbeat_outcomes self uuid advertise_address w :
  let path := "/v1/nodes/" +:+ uuid +:+ "/vendor_passthru/heartbeat" in
  let data :=
    VDict {[ "agent_url" := VStr (_get_agent_url advertise_address) ]} in
  let rq := fst (_request self "POST" path (Some data) w) in
  let w1 := snd (_request self "POST" path (Some data) w) in
  let out := fst (heartbeat self uuid advertise_address w) in
  snd (heartbeat self uuid advertise_address w) = w1 /\
  (length (sent w1) <= S (length (sent w)))%nat /\ slept w1 = slept w /\
  (forall x, out = Return x <->
     exists resp h, rq = Return resp /\ status_code resp = 204 /\
                    headers resp "Heartbeat-Before" = Some h /\
                    float h = Some x) /\
  (forall resp x, rq = Return resp -> status_code resp = 204 ->
     headers resp "Heartbeat-Before" = Some "10.5" ->
     float "10.5" = Some x -> out = Return x) /\
  (forall e, rq = Raise e -> out = Raise (Error HeartbeatError (str e))) /\
  (forall resp, rq = Return resp -> status_code resp <> 204 ->
     out = Raise (Error HeartbeatError
                    ("Invalid status code: " +:+ pretty (status_code resp)))) /\
  (forall resp, rq = Return resp -> status_code resp = 204 ->
     headers resp "Heartbeat-Before" = None ->
     out = Raise (Error HeartbeatError "Missing Heartbeat-Before header")) /\
  (forall resp h, rq = Return resp -> status_code resp = 204 ->
     headers resp "Heartbeat-Before" = Some h -> float h = None ->
     out = Raise (Error HeartbeatError "Invalid Heartbeat-Before header")).
Proof.
  intros path data rq w1 out.
  pose proof (_request_effects self "POST" path (Some data) w)
    as (_ & _ & Hslept & Hsent).
  fold w1 in Hslept, Hsent.
  assert (Hb : heartbeat self uuid advertise_address w =
          match rq with
          | Raise e => (Raise (Error HeartbeatError (str e)), w1)
          | Return resp =>
              if negb (status_code resp =? codes.NO_CONTENT)%Z then
                (Raise (Error HeartbeatError
                   ("Invalid status code: " +:+ pretty (status_code resp))),
                 w1)
              else
                match headers resp "Heartbeat-Before" with
                | None => (Raise (Error HeartbeatError
                                    "Missing Heartbeat-Before header"), w1)
                | Some h =>
                    match float h with
                    | Some x => (Return x, w1)
                    | None => (Raise (Error HeartbeatError
                                        "Invalid Heartbeat-Before header"), w1)
                    end
                end
          end).
  { unfold heartbeat, try_except. unfold bind at 1.
    change ("/" +:+ api_version +:+ "/nodes/" +:+ uuid
              +:+ "/vendor_passthru/heartbeat") with path.
    fold data. subst rq w1.
    destruct (_request self "POST" path (Some data) w) as [[resp|e] w'];
      simpl; [|reflexivity].
    destruct (negb _); [reflexivity|].
    destruct (headers resp "Heartbeat-Before") as [h|]; [|reflexivity].
    destruct (float h); reflexivity. }
  subst out. rewrite Hb. clear Hb.
  unfold codes.NO_CONTENT.
  split; [|split; [exact Hsent | split; [exact Hslept|]]].
  { destruct rq as [resp|e]; [|reflexivity].
    destruct (negb _); [reflexivity|].
    destruct (headers resp "Heartbeat-Before") as [h|]; [|reflexivity].
    destruct (float h); reflexivity. }
  destruct rq as [resp|e].
  - destruct (status_code resp =? 204)%Z eqn:Hs; simpl.
    + apply Z.eqb_eq in Hs.
      destruct (headers resp "Heartbeat-Before") as [h|] eqn:Hh;
        [destruct (float h) as [y|] eqn:Hf|]; simpl; settle_heartbeat.
    + apply Z.eqb_neq in Hs. settle_heartbeat.
  - simpl. settle_heartbeat.
Qed.

(* ------------------------------------------------------------------ *)
(** ** The base URL                                                    *)
(* ------------------------------------------------------------------ *)

Lemma append_slash_not_empty (t : string) : t +:+ "/" <> EmptyString.
Proof. destruct t; discriminate. Qed.

Lemma append_empty_l (x : string) : EmptyString +:+ x = x.
Proof. reflexivity. Qed.

Lemma append_String (c : ascii) (x y : string) :
  String c x +:+ y = String c (x +:+ y).
Proof. reflexivity. Qed.

Lemma rstrip_slash_fixed (r : string) :
  (forall t, r <> t +:+ "/") -> rstrip_slash r = r.
Proof.
  induction r as [|c r IH]; intros Hno; [reflexivity|]. simpl.
  destruct r as [|a b].
  - simpl. destruct (Ascii.eqb c "/") eqn:E; [|reflexivity].
    apply Ascii.eqb_eq in E. subst c. destruct (Hno EmptyString). reflexivity.
  - rewrite IH; [reflexivity|].
    intros t E. apply (Hno (String c t)).
    rewrite append_String, <- E. reflexivity.
Qed.

(** X1. The constructor strips the trailing slashes and nothing else: the
    url it was given is the stored one followed by slashes only, the
    stored one does not end with a slash, and stripping again changes
    nothing. *)
Theorem rstrip_slash_strips_trailing (s : string) :
  (exists k, s = rstrip_slash s +:+ slashes k) /\
  (forall t, rstrip_slash s <> t +:+ "/") /\
  api_url (APIClient_init (api_url (APIClient_init s)))
    = api_url (APIClient_init s).
Proof.
  assert (H : (exists k, s = rstrip_slash s +:+ slashes k) /\
              (forall t, rstrip_slash s <> t +:+ "/")).
  { induction s as [|c s [[k Hk] Hno]].
    - split; [exists 0%nat; reflexivity|]. intros t E. symmetry in E.
      eapply append_slash_not_empty, E.
    - simpl. destruct (rstrip_slash s) as [|a b] eqn:Hr.
      + rewrite append_empty_l in Hk.
        destruct (Ascii.eqb c "/") eqn:E.
        * apply Ascii.eqb_eq in E. subst c. split.
          -- exists (S k). rewrite append_empty_l. simpl. f_equal. exact Hk.
          -- intros t E. symmetry in E. eapply append_slash_not_empty, E.
        * split.
          -- exists k. rewrite append_String, append_empty_l.
             f_equal. exact Hk.
          -- intros [|c' t] E'.
             ++ rewrite append_empty_l in E'. injection E' as ->.
                rewrite Ascii.eqb_refl in E. discriminate.
             ++ rewrite append_String in E'. injection E' as _ E'.
                symmetry in E'. eapply append_slash_not_empty, E'.
      + split.
        * exists k. rewrite append_String. f_equal. exact Hk.
        * intros [|c' t] E'.
          -- rewrite append_empty_l in E'. discriminate.
          -- rewrite append_String in E'. injection E' as _ E'.
             eapply Hno, E'. }
  destruct H as [Hk Hno]. repeat split; auto.
  simpl. apply rstrip_slash_fixed, Hno.
Qed.

(* ------------------------------------------------------------------ *)
(** ** What one step touches                                           *)
(* ------------------------------------------------------------------ *)

Lemma lookup_request_outcome (self : APIClient) (hardware_info : value)
    (w : world) :
  _request self "POST" lookup_path (Some (lookup_data hardware_info)) w =
    match encode (lookup_data hardware_info) with
    | Raise e => (Raise e, w)
    | Return payload =>
        (session_request (length (sent w)) (lookup_request self payload),
         World (heap w) (sent w ++ [lookup_request self payload]) (log w)
               (slept w))
    end.
Proof.
  unfold _request, bind, lift, ret, session_call, lookup_request.
  destruct (encode _); reflexivity.
Qed.

Lemma lookup_signal_of_request (self : APIClient) (hardware_info : value)
    (w : world) :
  let rq := _request self "POST" lookup_path (Some (lookup_data hardware_info))
              w in
  exists reqs,
    lookup_signal self hardware_info (length (sent w))
      = (reqs, judge (fst rq)) /\
    (length reqs <= 1)%nat /\
    snd rq = World (heap w) (sent w ++ reqs) (log w) (slept w).
Proof.
  cbv zeta. rewrite lookup_request_outcome. unfold lookup_signal, lookup_data.
  destruct (encode _) as [payload|e]; simpl.
  - exists [lookup_request self payload]. auto.
  - exists []. rewrite app_nil_r. destruct w; auto.
Qed.

Lemma next_interval_cases (timeout : Z) (il tl : loc) (w : world) :
  match next_interval timeout il tl w with
  | (Raise e, w') =>
      w' = w /\ (e = LoopingCallDone None \/ exists c msg, e = Error c msg)
  | (Return idle, w') =>
      sent w' = sent w /\ log w' = log w /\ slept w' = slept w /\
      length (heap w') = length (heap w) /\
      (forall l, l <> il -> l <> tl -> heap w' !! l = heap w !! l) /\
      exists ivs x, heap w !! il = Some ivs /\ last ivs = Some x /\
                    idle = x * 2
  end.
Proof.
  unfold next_interval, list_last, list_first, list_set_first, list_append,
    bind, deref, store, ret, raise.
  destruct (heap w !! il) as [ivs|] eqn:Hil; [|eauto 6].
  destruct (last ivs) as [x|] eqn:Hlast; [|eauto 6].
  destruct (heap w !! tl) as [[|t rest]|] eqn:Htl; [eauto 6| |eauto 6].
  destruct (t + x * 2 >? timeout)%Z; [eauto|].
  rewrite Htl. cbn. rewrite Htl. cbn.
  destruct (<[tl := t + x * 2 :: rest]> (heap w) !! il) as [ivs'|] eqn:Hil'.
  - cbn. repeat split.
    + rewrite !length_insert. reflexivity.
    + intros l Hl1 Hl2. rewrite !list_lookup_insert_ne by congruence.
      reflexivity.
    + eauto.
  - apply lookup_ge_None in Hil'. rewrite length_insert in Hil'.
    apply lookup_lt_Some in Hil. lia.
Qed.

(** X2. next_interval is all or nothing.  When it raises, the world is as
    it was, and it raises LoopingCallDone without a value or an error of
    the list operations; when it returns, it returns the double of the
    last interval and has changed nothing but the two lists it was given
    (no request, no warning, no sleep, no other object).  An empty
    intervals list, such as its own default, or an empty total_time list
    gives IndexError. *)
Theorem next_interval_all_or_nothing (timeout : Z) (il tl : loc) (w : world) :
  match next_interval timeout il tl w with
  | (Raise e, w') =>
      w' = w /\ (e = LoopingCallDone None \/ exists c msg, e = Error c msg)
  | (Return idle, w') =>
      sent w' = sent w /\ log w' = log w /\ slept w' = slept w /\
      length (heap w') = length (heap w) /\
      (forall l, l <> il -> l <> tl -> heap w' !! l = heap w !! l) /\
      exists ivs x, heap w !! il = Some ivs /\ last ivs = Some x /\
                    idle = x * 2
  end /\
  (heap w !! il = Some [] ->
   next_interval timeout il tl w
     = (Raise (Error IndexError "list index out of range"), w)) /\
  (forall ivs x, heap w !! il = Some ivs -> last ivs = Some x ->
   heap w !! tl = Some [] ->
   next_interval timeout il tl w
     = (Raise (Error IndexError "list index out of range"), w)).
Proof.
  split; [apply next_interval_cases|]. split.
  - intros Hil. unfold next_interval, list_last, bind, deref, raise.
    rewrite Hil. reflexivity.
  - intros ivs x Hil Hlast Htl.
    unfold next_interval, list_last, list_first, bind, deref, ret, raise.
    rewrite Hil, Hlast. cbn. rewrite Htl. reflexivity.
Qed.

Lemma _do_lookup_of_request (self : APIClient) (hardware_info : value)
    (timeout : Z) (il tl : loc) (w : world) :
  let rq := _request self "POST" lookup_path (Some (lookup_data hardware_info))
              w in
  _do_lookup self hardware_info timeout il tl w =
    match judge (fst rq) with
    | Continue m =>
        next_interval timeout il tl
          (World (heap w) (sent (snd rq)) (log w ++ [m]) (slept w))
    | Done content => (Raise (LoopingCallDone (Some content)), snd rq)
    | Escape e => (Raise e, snd rq)
    end.
Proof.
  cbv zeta. rewrite _do_lookup_signal.
  destruct (lookup_signal_of_request self hardware_info w)
    as (reqs & -> & _ & Hw).
  rewrite Hw. simpl. reflexivity.
Qed.

(** X3. What a run of _do_lookup touches: it never sleeps, sends at most
    one request, logs at most one warning, keeps the number of objects and
    leaves every object but its two lists as it was; when it returns an
    interval (a retry) it has logged exactly one warning, and when it
    raises it has logged one at most. *)
Theorem _do_lookup_footprint self hardware_info timeout il tl w :
  let r := fst (_do_lookup self hardware_info timeout il tl w) in
  let w' := snd (_do_lookup self hardware_info timeout il tl w) in
  slept w' = slept w /\
  length (heap w') = length (heap w) /\
  (forall l, l <> il -> l <> tl -> heap w' !! l = heap w !! l) /\
  (exists reqs, sent w' = sent w ++ reqs /\ (length reqs <= 1)%nat) /\
  (exists ms, log w' = log w ++ ms /\ (length ms <= 1)%nat /\
              (forall idle, r = Return idle -> length ms = 1%nat)).
Proof.
  cbv zeta. rewrite _do_lookup_signal.
  destruct (lookup_signal self hardware_info (length (sent w)))
    as [reqs sg] eqn:Hsig.
  pose proof (lookup_signal_judged _ _ _ _ _ Hsig) as [Hlen _].
  destruct sg as [m|c|e].
  - pose proof (next_interval_cases timeout il tl
                  (World (heap w) (sent w ++ reqs) (log w ++ [m]) (slept w)))
      as H.
    destruct (next_interval _ _ _ _) as [[idle|e] w1]; simpl in *.
    + destruct H as (Hs & Hl & Hsl & Hh & Hfr & _).
      rewrite Hs, Hl, Hsl, Hh.
      split; [reflexivity|]. split; [reflexivity|]. split; [exact Hfr|].
      split; [exists reqs; auto|]. exists [m]. simpl. auto.
    + destruct H as [-> _]. simpl.
      split; [reflexivity|]. split; [reflexivity|]. split; [reflexivity|].
      split; [exists reqs; auto|]. exists [m]. simpl.
      split; [reflexivity|]. split; [lia | discriminate].
  - simpl.
    split; [reflexivity|]. split; [reflexivity|]. split; [reflexivity|].
    split; [exists reqs; auto|]. exists []. rewrite app_nil_r. simpl.
    split; [reflexivity|]. split; [lia | discriminate].
  - simpl.
    split; [reflexivity|]. split; [reflexivity|]. split; [reflexivity|].
    split; [exists reqs; auto|]. exists []. rewrite app_nil_r. simpl.
    split; [reflexivity|]. split; [lia | discriminate].
Qed.

(** X4. A failure of the request, a status other than 200 and a body that
    json.loads rejects are all answered alike, whatever the failure: one
    warning, then the doubled last interval when it fits the budget and
    LoopingCallDone without a value when it does not.  No other exception
    comes out. *)
Theorem retryable_failures_spend_budget self hardware_info timeout il tl w
    ivs x t :
  il <> tl ->
  heap w !! il = Some ivs -> last ivs = Some x ->
  heap w !! tl = Some [t] ->
  retryable (fst (_request self "POST" lookup_path
                    (Some (lookup_data hardware_info)) w)) ->
  fst (_do_lookup self hardware_info timeout il tl w) =
    (if (t + x * 2 >? timeout)%Z then Raise (LoopingCallDone None)
     else Return (x * 2)) /\
  exists m, log (snd (_do_lookup self hardware_info timeout il tl w))
            = log w ++ [m].
Proof.
  intros Hne Hil Hlast Htl Hretry.
  rewrite _do_lookup_of_request.
  assert (Hj : exists m,
             judge (fst (_request self "POST" lookup_path
                           (Some (lookup_data hardware_info)) w))
             = Continue m).
  { destruct (fst (_request _ _ _ _ _)) as [resp|e]; simpl in *; [|eauto].
    destruct Hretry as [Hs | [e He]].
    - destruct (status_code resp =? codes.OK)%Z eqn:E; simpl; [lia | eauto].
    - destruct (negb _); [eauto|]. rewrite He. eauto. }
  destruct Hj as [m ->].
  rewrite (next_interval_run timeout il tl _ ivs t []) by assumption.
  rewrite Hlast.
  destruct (t + x * 2 >? timeout)%Z; simpl; eauto.
Qed.

Lemma judge_Done_iff (r : result response) (c : value) :
  judge r = Done c <->
  exists resp, r = Return resp /\ status_code resp = codes.OK /\
               json_loads (content resp) = Return c /\ accepted c.
Proof.
  split.
  - intros H. apply judge_Done in H as (resp & -> & Hs & Hc & Hv).
    exists resp. repeat split; auto.
    apply validate_Done in Hv as (_ & d & node & hb & H). exists d, node, hb.
    exact H.
  - intros (resp & -> & Hs & Hc & d & node & hb & H). simpl.
    rewrite Hs, Hc. simpl. apply validate_Done. split; [reflexivity|].
    exists d, node, hb. exact H.
Qed.

(** X5. _do_lookup stops the loop with a value exactly when the request
    returned a response of status 200 whose body json.loads decodes to a
    dict with a "node" entry on which ['uuid' in node] holds and a
    "heartbeat_timeout" entry; the value is the decoded body.  The state
    of the budget plays no part, and then nothing is logged and the lists
    are not touched. *)
Theorem _do_lookup_done_iff self hardware_info timeout il tl w c :
  let rq := _request self "POST" lookup_path (Some (lookup_data hardware_info))
              w in
  (fst (_do_lookup self hardware_info timeout il tl w)
     = Raise (LoopingCallDone (Some c)) <->
   exists resp, fst rq = Return resp /\ status_code resp = 200 /\
                json_loads (content resp) = Return c /\ accepted c) /\
  (fst (_do_lookup self hardware_info timeout il tl w)
     = Raise (LoopingCallDone (Some c)) ->
   snd (_do_lookup self hardware_info timeout il tl w) = snd rq /\
   log (snd rq) = log w /\ heap (snd rq) = heap w).
Proof.
  cbv zeta. rewrite _do_lookup_of_request.
  pose proof (_request_effects self "POST" lookup_path
                (Some (lookup_data hardware_info)) w) as (Hh & Hl & _).
  cbv zeta in Hh, Hl.
  rewrite <- (judge_Done_iff _ c).
  destruct (judge _) as [m|c'|e] eqn:Hj.
  - pose proof (next_interval_cases timeout il tl
                  (World (heap w) (sent (snd (_request self "POST" lookup_path
                     (Some (lookup_data hardware_info)) w)))
                     (log w ++ [m]) (slept w))) as H.
    destruct (next_interval _ _ _ _) as [[idle|e] w1]; simpl.
    + split; [split; discriminate | discriminate].
    + destruct H as [_ [-> | (cl & msg & ->)]];
        (split; [split; discriminate | discriminate]).
  - simpl. split.
    + split; intros E; injection E as ->; reflexivity.
    + auto.
  - apply judge_Escape in Hj as [msg ->]. simpl.
    split; [split; discriminate | discriminate].
Qed.

(* ------------------------------------------------------------------ *)
(** ** What lookup_node hands back and sends                           *)
(* ------------------------------------------------------------------ *)

(** X6. Whatever lookup_node returns has passed the checks: it is a dict
    with a "node" entry on which ['uuid' in node] holds and a
    "heartbeat_timeout" entry (never True, never a body that was
    refused).  Whatever it raises is LookupNodeError with its fixed text,
    or a TypeError of the checks. *)
Theorem lookup_node_result fuel self hardware_info timeout starting_interval
    w r w' :
  lookup_node fuel self hardware_info timeout starting_interval w
    = Some (r, w') ->
  match r with
  | Return c => accepted c
  | Raise e =>
      e = Error LookupNodeError
            "Could not look up node info. Check logs for details." \/
      exists msg, e = Error TypeError msg
  end.
Proof.
  intros Hrun.
  apply lookup_node_loops in Hrun as (r0 & rn & Hloops & -> & _).
  apply loops_result in Hloops; [|discriminate].
  destruct Hloops as [(c & -> & Hv) | [-> | (msg & ->)]]; simpl.
  - rewrite (Done_not_True _ Hv).
    apply validate_Done in Hv as (_ & d & node & hb & H).
    exists d, node, hb. exact H.
  - auto.
  - eauto.
Qed.

Lemma lookup_signal_requests (self : APIClient) (hardware_info : value)
    (n : nat) (reqs : list request) (sg : signal) :
  lookup_signal self hardware_info n = (reqs, sg) ->
  reqs = match encode (lookup_data hardware_info) with
         | Return payload => [lookup_request self payload]
         | Raise _ => []
         end.
Proof.
  unfold lookup_signal, lookup_data.
  destruct (encode _); intros H; injection H as <- _; reflexivity.
Qed.

Lemma loops_requests (self : APIClient) (hardware_info : value) (timeout : Z)
    n st r rn :
  loops self hardware_info timeout n st r rn ->
  requests rn = match encode (lookup_data hardware_info) with
                | Return payload =>
                    repeat (lookup_request self payload)
                      (S (length (sleeps rn)))
                | Raise _ => []
                end.
Proof.
  induction 1 as [n st reqs c Hsig | n st reqs e Hsig | n st reqs m Hsig Hlast
                 | n st reqs m x Hsig
                 | n st reqs m x r rn Hsig Hlast Hle Hrec IH];
    apply lookup_signal_requests in Hsig; subst reqs; simpl.
  - destruct (encode _); reflexivity.
  - destruct (encode _); reflexivity.
  - destruct (encode _); reflexivity.
  - destruct (encode _); reflexivity.
  - rewrite IH. destruct (encode _); reflexivity.
Qed.

(** X7. Every invocation of a finished run sends the same request, one
    each: POST to the lookup path of the base URL with the JSON headers
    and the encoded {"hardware": hardware_info}; there is one request
    more than sleeps.  When the encoder raises, no request is sent at
    all. *)
Theorem lookup_node_requests fuel self hardware_info timeout starting_interval
    w r w' :
  lookup_node fuel self hardware_info timeout starting_interval w
    = Some (r, w') ->
  exists idle,
    slept w' = slept w ++ idle /\
    sent w' = sent w ++
      match encode (VDict {[ "hardware" := hardware_info ]}) with
      | Return payload =>
          repeat (Request "POST"
                    (api_url self
                       +:+ "/v1/drivers/teeth/vendor_passthru/lookup")
                    [("Content-Type", "application/json");
                     ("Accept", "application/json")] (Some payload))
                 (S (length idle))
      | Raise _ => []
      end.
Proof.
  intros Hrun.
  apply lookup_node_loops in Hrun as (r0 & rn & Hloops & _ & ->).
  exists (sleeps rn). split; [reflexivity|]. simpl.
  rewrite (loops_requests _ _ _ _ _ _ _ Hloops). reflexivity.
Qed.

Lemma loops_encoder_failure (self : APIClient) (hardware_info : value)
    (timeout : Z) (e : exn) n st r rn :
  encode (lookup_data hardware_info) = Raise e ->
  loops self hardware_info timeout n st r rn ->
  rs_intervals st <> [] ->
  r = Return (VBool true) /\
  warnings rn = repeat (POST_failed (str e)) (S (length (sleeps rn))).
Proof.
  intros Henc.
  assert (Hsig : forall k reqs sg,
            lookup_signal self hardware_info k = (reqs, sg) ->
            sg = Continue (POST_failed (str e))).
  { intros k reqs sg. unfold lookup_signal. fold (lookup_data hardware_info).
    rewrite Henc. intros H; injection H as _ <-. reflexivity. }
  induction 1 as [n st reqs c H0 | n st reqs e0 H0 | n st reqs m H0 Hlast
                 | n st reqs m x H0
                 | n st reqs m x r rn H0 Hlast Hle Hrec IH];
    intros Hne; apply Hsig in H0; try discriminate.
  - apply last_None in Hlast. contradiction.
  - injection H0 as ->. auto.
  - injection H0 as ->. destruct IH as [-> Hw].
    + simpl. intros E. apply app_eq_nil in E as [_ E]. discriminate.
    + split; [reflexivity|]. simpl. rewrite Hw. reflexivity.
Qed.

(** X8. When the encoder raises on the payload (hardware_info that cannot
    be serialised), a finished lookup has sent nothing, has logged the
    text of the exception once per invocation, and ends in
    LookupNodeError: the failure is retried until the budget is spent. *)
Theorem encoder_failure_times_out fuel self hardware_info timeout
    starting_interval w r w' e :
  encode (VDict {[ "hardware" := hardware_info ]}) = Raise e ->
  lookup_node fuel self hardware_info timeout starting_interval w
    = Some (r, w') ->
  r = Raise (Error LookupNodeError
               "Could not look up node info. Check logs for details.") /\
  sent w' = sent w /\
  exists idle, slept w' = slept w ++ idle /\
               log w' = log w ++ repeat (POST_failed (str e))
                                   (S (length idle)).
Proof.
  intros Henc Hrun.
  apply lookup_node_loops in Hrun as (r0 & rn & Hloops & -> & ->).
  pose proof (loops_requests _ _ _ _ _ _ _ Hloops) as Hreq.
  fold (lookup_data hardware_info) in Henc. rewrite Henc in Hreq.
  destruct (loops_encoder_failure _ _ _ _ _ _ _ _ Henc Hloops) as [-> Hw];
    [discriminate|].
  simpl. rewrite Hreq, Hw, app_nil_r. eauto.
Qed.

(* ------------------------------------------------------------------ *)
(** ** Ending, and not ending                                          *)
(* ------------------------------------------------------------------ *)

(** X9. With a positive starting_interval lookup_node ends: fuel above
    the number of seconds of the budget gives a result, and more fuel
    gives the same result and the same final world. *)
Theorem lookup_node_ends fuel self hardware_info timeout starting_interval w :
  0 < starting_interval ->
  (Z.to_nat timeout < fuel)%nat ->
  exists r w',
    lookup_node fuel self hardware_info timeout starting_interval w
      = Some (r, w') /\
    forall fuel', (fuel <= fuel')%nat ->
      lookup_node fuel' self hardware_info timeout starting_interval w
        = Some (r, w').
Proof.
  intros Hs Hfuel.
  destruct (retry_loop_terminates self hardware_info timeout fuel
              (length (sent w))
              {| rs_intervals := [starting_interval]; rs_total_time := 0 |}
              starting_interval eq_refl Hs) as (r & rn & Hrun).
  { simpl. rewrite Z.sub_0_r. exact Hfuel. }
  exists (node_or_error r), (after_lookup w rn). split.
  - rewrite lookup_node_retry_loop, Hrun. reflexivity.
  - intros fuel' Hle. rewrite lookup_node_retry_loop.
    rewrite (retry_loop_more_fuel _ _ _ _ _ _ _ _ _ Hle Hrun). reflexivity.
Qed.

Lemma retry_loop_stuck (self : APIClient) (hardware_info : value)
    (timeout : Z) (fuel : nat) :
  (forall n, exists reqs m,
     lookup_signal self hardware_info n = (reqs, Continue m)) ->
  forall n st x,
  last (rs_intervals st) = Some x -> x <= 0 ->
  rs_total_time st <= timeout ->
  retry_loop fuel self hardware_info timeout n st = None.
Proof.
  intros Hsig. induction fuel as [|fuel IH]; intros n st x Hlast Hx Ht;
    [reflexivity|]. simpl.
  destruct (Hsig n) as (reqs & m & ->). rewrite Hlast.
  destruct (rs_total_time st + x * 2 >? timeout)%Z eqn:E; [lia|].
  rewrite (IH _ _ (x * 2)); [reflexivity | apply last_snoc | lia | simpl; lia].
Qed.

(** X10. With starting_interval 0 and a budget that is not negative, the
    intervals stay 0 and the check never refuses: when every answer of
    the session is a failure that is retried, lookup_node never ends,
    whatever the fuel. *)
Theorem zero_interval_never_returns fuel self hardware_info timeout w :
  0 <= timeout ->
  (forall n req, retryable (session_request n req)) ->
  lookup_node fuel self hardware_info timeout 0 w = None.
Proof.
  intros Ht Hretry. rewrite lookup_node_retry_loop.
  rewrite (retry_loop_stuck self hardware_info timeout fuel) with (x := 0);
    try reflexivity; simpl; try lia.
  intros n. unfold lookup_signal.
  destruct (encode _) as [payload|e]; [|simpl; eauto].
  cbv zeta. specialize (Hretry n (lookup_request self payload)).
  destruct (session_request n _) as [resp|e]; simpl in *; [|eauto].
  destruct Hretry as [Hs | [e He]].
  - destruct (status_code resp =? codes.OK)%Z eqn:E; simpl; [lia | eauto].
  - destruct (negb _); [eauto|]. rewrite He. eauto.
Qed.

Lemma cumulative_backoffs (s : Z) (k : nat) :
  cumulative (map (backoff s) (seq 1 k)) = s * (2 ^ Z.of_nat (S k) - 2).
Proof.
  induction k as [|k IH].
  - simpl. lia.
  - rewrite seq_S, map_app.
    change (map (backoff s) [(1 + k)%nat]) with [backoff s (S k)].
    rewrite cumulative_snoc, IH. unfold backoff.
    rewrite (Nat2Z.inj_succ (S k)), Z.pow_succ_r by lia. lia.
Qed.

(** X11. The counted time in closed form: a finished run with k sleeps
    leaves total_time = starting_interval * (2^(k+1) - 2), which is within
    timeout when k is not 0; and a timeout below twice the starting
    interval allows no retry at all: one invocation, no sleep. *)
Theorem counted_time_closed_form fuel self hardware_info timeout
    starting_interval w r w' :
  lookup_node fuel self hardware_info timeout starting_interval w
    = Some (r, w') ->
  exists k,
    slept w' = slept w ++ map (backoff starting_interval) (seq 1 k) /\
    heap w' !! S (length (heap w))
      = Some [starting_interval * (2 ^ Z.of_nat (S k) - 2)] /\
    (k <> 0%nat ->
     starting_interval * (2 ^ Z.of_nat (S k) - 2) <= timeout) /\
    (timeout < 2 * starting_interval ->
     k = 0%nat /\ (length (sent w') <= S (length (sent w)))%nat).
Proof.
  intros Hrun.
  apply lookup_node_loops in Hrun as (r0 & rn & Hloops & _ & ->).
  pose proof (loops_final _ _ _ _ _ _ _ Hloops) as [Hi Ht].
  pose proof (loops_doubling _ _ _ _ _ _ _ Hloops starting_interval eq_refl)
    as Hd.
  pose proof (loops_budget _ _ _ _ _ _ _ Hloops) as Hb.
  pose proof (loops_counts _ _ _ _ _ _ _ Hloops) as [Hc _].
  simpl in *. set (k := length (sleeps rn)) in *.
  assert (Hsum : cumulative (sleeps rn)
                 = starting_interval * (2 ^ Z.of_nat (S k) - 2)).
  { rewrite Hd. apply cumulative_backoffs. }
  exists k. split; [rewrite <- Hd; reflexivity|]. split; [|split].
  - rewrite Hi, Ht, Z.add_0_l, Hsum. apply lookup_second_fresh.
  - intros Hk. specialize (Hb k ltac:(lia)).
    unfold k in Hb at 1. rewrite firstn_all in Hb. lia.
  - intros Hlt.
    assert (Hk : k = 0%nat).
    { destruct k as [|k'] eqn:Ek; [reflexivity|].
      specialize (Hb 1%nat ltac:(lia)). rewrite Hd in Hb. simpl in Hb.
      unfold backoff in Hb. simpl in Hb. lia. }
    split; [exact Hk|]. rewrite length_app. lia.
Qed.

(* ------------------------------------------------------------------ *)
(** ** The request of a heartbeat                                      *)
(* ------------------------------------------------------------------ *)

(** X12. A heartbeat sends one request whatever comes back: POST to the
    heartbeat path of the node under the base URL, with the JSON headers
    and the encoded {"agent_url": "http://host:port"}, and touches nothing
    else (no list, no warning, no sleep).  When the encoder raises, no
    request is sent and HeartbeatError carries the text of the
    exception. *)
Theorem heartbeat_sends_once self uuid host port w :
  match encode (VDict {[ "agent_url" :=
                           VStr ("http://" +:+ host +:+ ":" +:+ pretty port) ]})
  with
  | Return payload =>
      snd (heartbeat self uuid (host, port) w) =
        World (heap w)
              (sent w ++
                 [Request "POST"
                    (api_url self +:+ "/v1/nodes/" +:+ uuid
                       +:+ "/vendor_passthru/heartbeat")
                    [("Content-Type", "application/json");
                     ("Accept", "application/json")] (Some payload)])
              (log w) (slept w)
  | Raise e =>
      heartbeat self uuid (host, port) w
        = (Raise (Error HeartbeatError (str e)), w)
  end.
Proof.
  unfold heartbeat, try_except, _request, session_call, _get_agent_url.
  unfold bind, lift, ret, raise. simpl fst. simpl snd.
  destruct (encode _) as [payload|e]; [|reflexivity].
  destruct (session_request _ _) as [resp|e]; [|reflexivity].
  destruct (negb _); [reflexivity|].
  destruct (headers resp "Heartbeat-Before") as [h|]; [|reflexivity].
  destruct (float h); reflexivity.
Qed.

End Client.

(* ------------------------------------------------------------------ *)
(** ** The client on concrete exchanges                                *)
(* ------------------------------------------------------------------ *)

(** The service answers 200 with a valid body at once: lookup_node
    returns the decoded body after one request and no sleep. *)
Example scenario_A :
  lookup_node Scenario.encoder (Scenario.always_200 "node") Scenario.decoder
    1 Scenario.client Scenario.hardware 3 1 boot =
  Some (Return Scenario.node_abc,
        World [[1]; [0]; [1]; [0]] [lookup_request Scenario.client "{}"]
              [] []).
Proof. vm_compute. reflexivity. Qed.

(** A body that is not JSON is logged and retried until the budget is
    spent. *)
Example undecodable_body_retries :
  lookup_node Scenario.encoder (Scenario.always_200 "<html>") Scenario.decoder
    5 Scenario.client Scenario.hardware 7 1 boot =
  Some (Scenario.timed_out,
        World [[1]; [0]; [1; 2; 4]; [6]]
              [lookup_request Scenario.client "{}";
               lookup_request Scenario.client "{}";
               lookup_request Scenario.client "{}"]
              [Error_decoding_response "No JSON object could be decoded";
               Error_decoding_response "No JSON object could be decoded";
               Error_decoding_response "No JSON object could be decoded"]
              [2; 4]).
Proof. vm_compute. reflexivity. Qed.

(** With starting_interval 0 and a service that never answers well the
    intervals stay 0 and the budget is never exceeded: after 50
    invocations the loop is still running. *)
Example zero_interval_never_ends :
  lookup_node Scenario.encoder Scenario.always_500 Scenario.decoder
    50 Scenario.client Scenario.hardware 3 0 boot = None.
Proof. vm_compute. reflexivity. Qed.

Example membership_on_decoded_values :
  contains "node" (VStr "my node") = Return true /\
  contains "node" (VList [VStr "node"]) = Return true /\
  contains "node" (VList [VStr "my node"]) = Return false /\
  contains "node" (VInt 5)
    = Raise (Error TypeError "argument of type 'int' is not iterable") /\
  getitem (VList [VStr "node"]) "node"
    = Raise (Error TypeError "list indices must be integers") /\
  validate Scenario.node_abc = Done Scenario.node_abc /\
  validate (VDict {[ "node" := VInt 5 ]})
    = Escape (Error TypeError "argument of type 'int' is not iterable").
Proof. vm_compute. repeat split; reflexivity. Qed.

Example agent_url_of_pair :
  _get_agent_url ("192.0.2.1", 9999) = "http://192.0.2.1:9999" /\
  api_url (APIClient_init "http://ironic:6385//") = "http://ironic:6385".
Proof. vm_compute. split; reflexivity. Qed.

(** C2, as stated, fails: the sleeps are not 1 then 2 and the counted
    time does not reach 3; one sleep of 2 is made and 2 is counted. *)
Lemma scenario_B_sleeps_once :
  exists r w',
    lookup_node Scenario.encoder Scenario.always_500 Scenario.decoder 2
      Scenario.client Scenario.hardware 3 1 boot = Some (r, w') /\
    slept w' = [2] /\ slept w' <> [1; 2] /\
    heap w' !! 3%nat = Some [2] /\ heap w' !! 3%nat <> Some [3] /\
    length (sent w') = 2%nat.
Proof.
  eexists _, _. split; [vm_compute; reflexivity|].
  vm_compute. repeat split; congruence.
Qed.

Lemma scenario_B_witness :
  lookup_node Scenario.encoder Scenario.always_500 Scenario.decoder 2
    Scenario.client Scenario.hardware 3 1 boot =
  Some (Raise (Error LookupNodeError
                 "Could not look up node info. Check logs for details."),
        World (heap boot ++ [[1; 2]; [2]])
              (sent boot ++ [lookup_request Scenario.client "{}";
                             lookup_request Scenario.client "{}"])
              (log boot ++ [Invalid_status_code 500; Invalid_status_code 500])
              (slept boot ++ [2]))
  /\ backoff 1 2 = 4 /\ cumulative [2] + backoff 1 2 = 6.
Proof.
  apply (scenario_B Scenario.encoder Scenario.always_500 Scenario.decoder
           Scenario.client Scenario.hardware "{}" boot 2).
  - reflexivity.
  - intros n req. eexists. split; reflexivity.
  - lia.
Defined.

Lemma null_body_escapes_witness :
  _do_lookup Scenario.encoder (Scenario.always_200 "null") Scenario.decoder
    Scenario.client Scenario.hardware 60 2%nat 3%nat
    (World [[1]; [0]; [1]; [0]] [] [] []) =
    (Raise (Error TypeError "argument of type 'NoneType' is not iterable"),
     World [[1]; [0]; [1]; [0]]
           ([] ++ [lookup_request Scenario.client "{}"]) [] [])
  /\
  forall fuel starting_interval,
    lookup_node Scenario.encoder (Scenario.always_200 "null") Scenario.decoder
      (S fuel) Scenario.client Scenario.hardware 60 starting_interval
      (World [[1]; [0]; [1]; [0]] [] [] []) =
      Some (Raise (Error TypeError
                     "argument of type 'NoneType' is not iterable"),
            World ([[1]; [0]; [1]; [0]] ++ [[starting_interval]; [0]])
                  ([] ++ [lookup_request Scenario.client "{}"]) [] []).
Proof.
  apply (null_body_escapes Scenario.encoder (Scenario.always_200 "null")
           Scenario.decoder Scenario.client Scenario.hardware "{}" 60
           2%nat 3%nat (World [[1]; [0]; [1]; [0]] [] [] [])
           (Response 200 Scenario.no_headers "null"));
    reflexivity.
Defined.

Lemma string_node_accepted_witness :
  _do_lookup Scenario.encoder (Scenario.always_200 "string") Scenario.decoder
    Scenario.client Scenario.hardware 60 2%nat 3%nat Scenario.entered =
    (Raise (LoopingCallDone (Some Scenario.node_as_string)),
     World (heap Scenario.entered)
           (sent Scenario.entered ++ [lookup_request Scenario.client "{}"])
           (log Scenario.entered) (slept Scenario.entered))
  /\
  forall fuel starting_interval,
    lookup_node Scenario.encoder (Scenario.always_200 "string")
      Scenario.decoder (S fuel) Scenario.client Scenario.hardware 60
      starting_interval Scenario.entered =
      Some (Return Scenario.node_as_string,
            World (heap Scenario.entered ++ [[starting_interval]; [0]])
                  (sent Scenario.entered
                     ++ [lookup_request Scenario.client "{}"])
                  (log Scenario.entered) (slept Scenario.entered)).
Proof.
  apply (string_node_accepted Scenario.encoder
           (Scenario.always_200 "string") Scenario.decoder Scenario.client
           Scenario.hardware "{}" 60 2%nat 3%nat Scenario.entered
           (Response 200 Scenario.no_headers "string")
           (<[ "node" := VStr "uuid" ]> {[ "heartbeat_timeout" := VInt 300 ]})
           "uuid" (VInt 300));
    reflexivity.
Defined.

Lemma budget_is_inclusive_witness :
  (fst (next_interval 2 2%nat 3%nat (World [[1]; [0]; [1]; [0]] [] [] []))
     = Raise (LoopingCallDone None) <-> 0 + 1 * 2 > 2) /\
  next_interval 2 2%nat 3%nat (World [[1]; [0]; [1]; [0]] [] [] []) =
    (Return 2, World [[1]; [0]; [1; 2]; [2]] [] [] []) /\
  DynamicLoopingCall 2
    (_do_lookup Scenario.encoder Scenario.always_500 Scenario.decoder
       Scenario.client Scenario.hardware 2 2%nat 3%nat)
    (World [[1]; [0]; [1]; [0]] [] [] []) =
  DynamicLoopingCall 1
    (_do_lookup Scenario.encoder Scenario.always_500 Scenario.decoder
       Scenario.client Scenario.hardware 2 2%nat 3%nat)
    (World [[1]; [0]; [1; 2]; [2]] [lookup_request Scenario.client "{}"]
       [Invalid_status_code 500] [2]).
Proof.
  pose proof (budget_is_inclusive Scenario.encoder Scenario.always_500
                Scenario.decoder) as [Hstep Hloop].
  destruct (Hstep 2 2%nat 3%nat (World [[1]; [0]; [1]; [0]] [] [] [])
              [1] 1 0) as [Hiff Hret]; try reflexivity; try lia.
  split; [exact Hiff|]. split.
  - apply Hret. lia.
  - apply (Hloop Scenario.client Scenario.hardware 2 2%nat 3%nat
             (World [[1]; [0]; [1]; [0]] [] [] []) [1] 1 0
             [lookup_request Scenario.client "{}"] (Invalid_status_code 500)
             1%nat); try reflexivity; lia.
Defined.

Lemma timeout_respected_witness :
  DynamicLoopingCall 1
    (_do_lookup Scenario.encoder Scenario.always_500 Scenario.decoder
       Scenario.client Scenario.hardware 1 2%nat 3%nat) Scenario.entered
    = Some (Return (VBool true),
            World (heap Scenario.entered)
                  (sent Scenario.entered
                     ++ [lookup_request Scenario.client "{}"])
                  (log Scenario.entered ++ [Invalid_status_code 500])
                  (slept Scenario.entered))
  /\
  exists idle,
    slept Scenario.after_first_call = slept boot ++ idle /\
    (length (sent Scenario.after_first_call)
       <= length (sent boot) + S (length idle))%nat /\
    (forall j, (0 < j <= length idle)%nat -> cumulative (take j idle) <= 3) /\
    ((exists msg, Scenario.timed_out = Raise (Error LookupNodeError msg)) <->
     length (log Scenario.after_first_call)
       = (length (log boot) + S (length idle))%nat) /\
    ((exists msg, Scenario.timed_out = Raise (Error LookupNodeError msg)) ->
     cumulative idle + backoff 1 (S (length idle)) > 3).
Proof.
  destruct (timeout_respected Scenario.encoder Scenario.always_500
              Scenario.decoder) as [Hstep Hrun].
  split.
  - apply (Hstep Scenario.client Scenario.hardware 1 2%nat 3%nat
             Scenario.entered [1] 1 0 [lookup_request Scenario.client "{}"]
             (Invalid_status_code 500)); try reflexivity; lia.
  - apply (Hrun 2%nat Scenario.client Scenario.hardware 3 1 boot
             Scenario.timed_out Scenario.after_first_call).
    vm_compute. reflexivity.
Defined.

Lemma backoff_doubling_witness :
  exists idle,
    heap Scenario.after_first_call !! length (heap boot) = Some (1 :: idle) /\
    slept Scenario.after_first_call = slept boot ++ idle /\
    (forall N x, (1 :: idle) !! N = Some x -> x = 1 * 2 ^ Z.of_nat N) /\
    (forall N x y, (1 :: idle) !! N = Some x ->
                   (1 :: idle) !! S N = Some y -> y = 2 * x) /\
    (0 < 1 ->
       (forall N x y, (1 :: idle) !! N = Some x ->
                      (1 :: idle) !! S N = Some y -> x < y) /\
       (forall i j, (i <= j)%nat ->
                    cumulative (take i idle) <= cumulative (take j idle))).
Proof.
  apply (backoff_doubling Scenario.encoder Scenario.always_500
           Scenario.decoder 2%nat Scenario.client Scenario.hardware 3 1 boot
           Scenario.timed_out Scenario.after_first_call).
  vm_compute. reflexivity.
Defined.

Lemma success_short_circuits_witness :
  exists w',
    lookup_node Scenario.encoder Scenario.third_time_lucky Scenario.decoder
      3 Scenario.client Scenario.hardware 14 1 boot
      = Some (Return Scenario.node_abc, w') /\
    slept w' = slept boot ++ map (backoff 1) (seq 1 2) /\
    length (sent w')
      = S (attempt_index Scenario.encoder Scenario.third_time_lucky
             Scenario.decoder Scenario.client Scenario.hardware
             (length (sent boot)) 2).
Proof.
  apply (success_short_circuits Scenario.encoder Scenario.third_time_lucky
           Scenario.decoder 3%nat Scenario.client Scenario.hardware 14 1 boot
           2%nat [lookup_request Scenario.client "{}"] Scenario.node_abc).
  - intros j Hj. destruct j as [|[|j]]; [| |lia];
      exists (POST_failed "Connection refused"); reflexivity.
  - reflexivity.
  - intros j Hj. destruct j as [|[|[|j]]]; [lia | | | lia];
      vm_compute; discriminate.
  - lia.
Defined.

Lemma fresh_state_per_call_witness :
  match lookup_node Scenario.encoder Scenario.always_500 Scenario.decoder 2
          Scenario.client Scenario.hardware 3 1 boot,
        lookup_node Scenario.encoder Scenario.always_500 Scenario.decoder 2
          Scenario.client Scenario.hardware 3 1 Scenario.after_first_call with
  | Some (r1, w1'), Some (r2, w2') =>
      r1 = r2 /\
      (exists rn, w1' = after_lookup boot rn /\
                  w2' = after_lookup Scenario.after_first_call rn) /\
      (forall l, (l < length (heap boot))%nat ->
                 heap w1' !! l = heap boot !! l) /\
      (forall l, (l < length (heap Scenario.after_first_call))%nat ->
                 heap w2' !! l = heap Scenario.after_first_call !! l)
  | None, None => True
  | _, _ => False
  end.
Proof.
  apply (fresh_state_per_call Scenario.encoder Scenario.always_500
           Scenario.decoder 2%nat Scenario.client Scenario.hardware 3 1 boot
           Scenario.after_first_call).
  intros i req. reflexivity.
Defined.

Lemma counted_time_is_sum_of_backoffs_witness :
  counted_state 1 2%nat 3%nat [] (snd (sleep 2
    (World [[1]; [0]; [1; 2]; [2]] [lookup_request Scenario.client "{}"]
           [Invalid_status_code 500] []))) /\
  exists idle,
    slept Scenario.after_first_call = slept boot ++ idle /\
    heap Scenario.after_first_call !! length (heap boot) = Some (1 :: idle) /\
    heap Scenario.after_first_call !! S (length (heap boot))
      = Some [cumulative idle] /\
    (forall x, head idle = Some x -> x = 2 * 1) /\
    (idle <> [] -> cumulative idle <= 3).
Proof.
  destruct (counted_time_is_sum_of_backoffs Scenario.encoder
              Scenario.always_500 Scenario.decoder) as (Hinit & Hstep & Hrun).
  split.
  - pose proof (Hstep Scenario.client Scenario.hardware 3 1 2%nat 3%nat []
                  Scenario.entered ltac:(lia)) as H.
    assert (Hc : counted_state 1 2%nat 3%nat [] Scenario.entered)
      by exact (Hinit 1 boot).
    specialize (H Hc).
    change (_do_lookup Scenario.encoder Scenario.always_500 Scenario.decoder
              Scenario.client Scenario.hardware 3 2%nat 3%nat Scenario.entered)
      with (@Return Z 2,
            World [[1]; [0]; [1; 2]; [2]] [lookup_request Scenario.client "{}"]
                  [Invalid_status_code 500] []) in H.
    exact (proj1 H).
  - apply (Hrun 2%nat Scenario.client Scenario.hardware 3 1 boot
             Scenario.timed_out Scenario.after_first_call).
    vm_compute. reflexivity.
Defined.

Lemma heartbeat_outcomes_witness :
  fst (heartbeat Scenario.encoder
         (Scenario.heartbeat_ok (Scenario.heartbeat_before "10.5"))
         (Z * Z) Scenario.read_float Scenario.client "abc"
         ("192.0.2.1", 9999) boot) = Return (21, 2).
Proof.
  apply (heartbeat_outcomes Scenario.encoder
           (Scenario.heartbeat_ok (Scenario.heartbeat_before "10.5"))
           (Z * Z) Scenario.read_float Scenario.client "abc"
           ("192.0.2.1", 9999) boot).
  exists (Response 204 (Scenario.heartbeat_before "10.5") ""), "10.5".
  repeat split; reflexivity.
Defined.

Lemma retryable_failures_spend_budget_witness :
  fst (_do_lookup Scenario.encoder Scenario.always_500 Scenario.decoder
         Scenario.client Scenario.hardware 3 2%nat 3%nat Scenario.entered) =
    (if (0 + 1 * 2 >? 3)%Z then Raise (LoopingCallDone None)
     else Return (1 * 2)) /\
  exists m,
    log (snd (_do_lookup Scenario.encoder Scenario.always_500 Scenario.decoder
                Scenario.client Scenario.hardware 3 2%nat 3%nat
                Scenario.entered))
    = log Scenario.entered ++ [m].
Proof.
  apply (retryable_failures_spend_budget Scenario.encoder Scenario.always_500
           Scenario.decoder Scenario.client Scenario.hardware 3 2%nat 3%nat
           Scenario.entered [1] 1 0); try reflexivity.
  - lia.
  - left. discriminate.
Defined.

Lemma lookup_node_result_witness : accepted Scenario.node_abc.
Proof.
  apply (lookup_node_result Scenario.encoder (Scenario.always_200 "node")
           Scenario.decoder 1%nat Scenario.client Scenario.hardware 3 1 boot
           (Return Scenario.node_abc)
           (World [[1]; [0]; [1]; [0]] [lookup_request Scenario.client "{}"]
                  [] [])).
  vm_compute. reflexivity.
Defined.

Lemma lookup_node_requests_witness :
  exists idle,
    slept Scenario.after_first_call = slept boot ++ idle /\
    sent Scenario.after_first_call = sent boot ++
      match Scenario.encoder (VDict {[ "hardware" := Scenario.hardware ]}) with
      | Return payload =>
          repeat (Request "POST"
                    (api_url Scenario.client
                       +:+ "/v1/drivers/teeth/vendor_passthru/lookup")
                    [("Content-Type", "application/json");
                     ("Accept", "application/json")] (Some payload))
                 (S (length idle))
      | Raise _ => []
      end.
Proof.
  apply (lookup_node_requests Scenario.encoder Scenario.always_500
           Scenario.decoder 2%nat Scenario.client Scenario.hardware 3 1 boot
           Scenario.timed_out Scenario.after_first_call).
  vm_compute. reflexivity.
Defined.

Lemma encoder_failure_times_out_witness :
  Scenario.timed_out =
    Raise (Error LookupNodeError
             "Could not look up node info. Check logs for details.") /\
  sent Scenario.after_unsent_call = sent boot /\
  exists idle,
    slept Scenario.after_unsent_call = slept boot ++ idle /\
    log Scenario.after_unsent_call
      = log boot ++ repeat (POST_failed (str (Error TypeError
                                                "is not JSON serializable")))
                      (S (length idle)).
Proof.
  apply (encoder_failure_times_out Scenario.broken_encoder Scenario.always_500
           Scenario.decoder 2%nat Scenario.client Scenario.hardware 3 1 boot
           Scenario.timed_out Scenario.after_unsent_call
           (Error TypeError "is not JSON serializable")).
  - reflexivity.
  - vm_compute. reflexivity.
Defined.

Lemma lookup_node_ends_witness :
  exists r w',
    lookup_node Scenario.encoder Scenario.always_500 Scenario.decoder 4
      Scenario.client Scenario.hardware 3 1 boot = Some (r, w') /\
    forall fuel', (4 <= fuel')%nat ->
      lookup_node Scenario.encoder Scenario.always_500 Scenario.decoder fuel'
        Scenario.client Scenario.hardware 3 1 boot = Some (r, w').
Proof.
  apply (lookup_node_ends Scenario.encoder Scenario.always_500
           Scenario.decoder 4%nat Scenario.client Scenario.hardware 3 1 boot).
  - lia.
  - simpl. lia.
Defined.

Lemma zero_interval_never_returns_witness :
  lookup_node Scenario.encoder Scenario.always_500 Scenario.decoder 100
    Scenario.client Scenario.hardware 3 0 boot = None.
Proof.
  apply (zero_interval_never_returns Scenario.encoder Scenario.always_500
           Scenario.decoder 100%nat Scenario.client Scenario.hardware 3 boot).
  - lia.
  - intros n req. left. discriminate.
Defined.

Lemma counted_time_closed_form_witness :
  exists k,
    slept Scenario.after_first_call = slept boot ++ map (backoff 1) (seq 1 k) /\
    heap Scenario.after_first_call !! S (length (heap boot))
      = Some [1 * (2 ^ Z.of_nat (S k) - 2)] /\
    (k <> 0%nat -> 1 * (2 ^ Z.of_nat (S k) - 2) <= 3) /\
    (3 < 2 * 1 ->
     k = 0%nat /\
     (length (sent Scenario.after_first_call) <= S (length (sent boot)))%nat).
Proof.
  apply (counted_time_closed_form Scenario.encoder Scenario.always_500
           Scenario.decoder 2%nat Scenario.client Scenario.hardware 3 1 boot
           Scenario.timed_out Scenario.after_first_call).
  vm_compute. reflexivity.
Defined.
